(** * mmdbwriter: the search-tree writer of a MaxMind DB file

    A shallow embedding of [Tree] (New, Insert, Get, Finalize, WriteTo and
    their helpers writeNode, recordValueForNode, copyRecord, ipV4ToV6 and
    writeMetadata), in the version of the tree writer whose New takes
    Options, together with the parts of Go's [net], [bufio] and [bytes]
    packages they call.  The trie node, the data values and the data
    writer live in files that are not among the sources; their definitions
    here follow the specification and say so.

    Conventions.
    - A byte is a [Z] in [0, 256); the conversion [byte(x)] of Go is
      written out as [x mod 256].
    - Go's [int] and [int64] are 64-bit.  Lengths, counts, bit depths and
      offsets of in-memory structures, and the sums of a few of them, are
      written with the operations of [Z].  Arithmetic on an [int] that the
      caller supplies (the record size) and the conversions [Uint16(x)],
      [Uint32(x)], [Uint64(x)] are written with their wrap-around; [/] is
      the truncated division [quot].
    - A run-time panic of Go (index out of range, [make] with a length out
      of range) is the result [None] of a function into [option]. *)

From stdpp Require Import base numbers list option strings gmap.

Local Open Scope Z_scope.

(** ** Bytes *)

Abbreviation byte := Z (only parsing).

(** [byte(x)]: conversion of an [int] to a byte. *)
Definition byte_of_int (x : Z) : byte := x `mod` 256.

(** The wrap-around of a 64-bit [int]. *)
Definition wrap_int (x : Z) : Z := (x + 2 ^ 63) `mod` 2 ^ 64 - 2 ^ 63.

(** [len(b)] as an [int]. *)
Definition len {A} (l : list A) : Z := Z.of_nat (length l).

(** [buf[i] = v]; Go panics when [i] is out of range. *)
Definition store (buf : list byte) (i : nat) (v : byte) : option (list byte) :=
  if decide (i < length buf)%nat then Some (<[i := v]> buf) else None.

(** [maxAlloc] of Go's runtime, the largest size of an allocation: [1 << 48]
    on the 64-bit platforms with 48 address bits (amd64, arm64). *)
Definition maxAlloc : Z := 2 ^ 48.

(** [make([]byte, n)]; Go panics (len out of range) when [n] is negative or
    above [maxAlloc].  A length within these bounds is allocated: running
    out of memory is not part of the model. *)
Definition make_bytes (n : Z) : option (list byte) :=
  if decide (n < 0 ∨ maxAlloc < n) then None
  else Some (replicate (Z.to_nat n) 0).

(** The bytes of a Go string literal. *)
Definition bytes_of_string (s : string) : list byte :=
  (λ c, Z.of_N (Ascii.N_of_ascii c)) <$> String.list_ascii_of_string s.

(** ** Errors

    The code builds its errors with [errors.New], [errors.Errorf] and
    [errors.Wrap]; each constructor stands for one message. *)

Inductive error : Type :=
  | ErrUnsupportedIPVersion (v : Z)
      (* "unsupported IPVersion: %d" *)
  | ErrInsertRoot
      (* "cannot insert a value into the root node of the tree" *)
  | ErrNotFinalized
      (* "the Tree is not finalized; run Finalize() before writing" *)
  | ErrNodeCount (written expected : Z)
      (* "number of nodes written (%d) doesn't match number expected (%d)" *)
  | ErrUnsupportedRecordSize (sz : Z)
      (* "unsupported record size of %d" *)
  | ErrShortWrite
      (* io.ErrShortWrite *)
  | ErrSink
      (* the error of the caller's io.Writer *)
  | ErrWrap (e : error) (msg : string).
      (* errors.Wrap(e, msg) *)

Global Instance error_eq_dec : EqDecision error.
Proof. solve_decision. Defined.

(** ** The value model

    The tagged data values and their canonical encoding (section 4.4 of the
    specification) are declared in files of the repository that are not
    part of the sources at hand; the tree writer only builds values
    ([String], [Map], [Slice], [Uint16], [Uint32], [Uint64] in
    writeMetadata) and hands them to the data writer. *)

(** Modelled from the spec: the variants of a data value (section 3).  A Go
    map value is an association list here: the order of the list is the
    order in which the pairs are written.  A float is its IEEE-754 bit
    pattern. *)
#[warnings="-register-all"]
Inductive DataType : Type :=
  | Pointer (offset : Z)
  | String (s : string)
  | Float64 (bits : Z)
  | Bytes (b : list byte)
  | Uint16 (n : Z)
  | Uint32 (n : Z)
  | Map (kvs : list (string * DataType))
  | Int32 (n : Z)
  | Uint64 (n : Z)
  | Uint128 (n : Z)
  | Slice (vs : list DataType)
  | Bool (b : bool)
  | Float32 (bits : Z).

(** Modelled from the spec: [n] bytes of [x], big-endian. *)
Fixpoint be_bytes (n : nat) (x : Z) : list byte :=
  match n with
  | O => []
  | S n' => byte_of_int (x ≫ (8 * Z.of_nat n')) :: be_bytes n' x
  end.

(** Modelled from the spec: leading zero bytes elided. *)
Fixpoint trim_zeros (b : list byte) : list byte :=
  match b with
  | 0 :: b' => trim_zeros b'
  | _ => b
  end.

(** Modelled from the spec: the control byte (with the extended type byte
    for the types above 7) and the length ladder: 0..28 direct, 29 + one
    byte, 285 + two bytes, 65821 + three bytes. *)
Definition control (typeNum : Z) (size : Z) : list byte :=
  let first (low : Z) :=
    if decide (typeNum ≤ 7) then [Z.lor (typeNum ≪ 5) low]
    else [low; typeNum - 7] in
  if decide (size < 29) then first size
  else if decide (size < 285) then first 29 ++ be_bytes 1 (size - 29)
  else if decide (size < 65821) then first 30 ++ be_bytes 2 (size - 285)
  else first 31 ++ be_bytes 3 (size - 65821).

(** Modelled from the spec: a pointer takes the smallest of the four size
    classes that fits. *)
Definition encode_pointer (p : Z) : list byte :=
  if decide (p < 2048) then
    [Z.lor 0x20 (p ≫ 8); byte_of_int p]
  else if decide (p < 526336) then
    Z.lor 0x28 ((p - 2048) ≫ 16) :: be_bytes 2 (p - 2048)
  else if decide (p < 526336 + 2 ^ 27) then
    Z.lor 0x30 ((p - 526336) ≫ 24) :: be_bytes 3 (p - 526336)
  else 0x38 :: be_bytes 4 p.

(** Modelled from the spec: unsigned integers, big-endian with the leading
    zero bytes elided. *)
Definition encode_uint (typeNum : Z) (width : nat) (n : Z) : list byte :=
  let payload := trim_zeros (be_bytes width n) in
  control typeNum (len payload) ++ payload.

(** Modelled from the spec: a string is its raw octets. *)
Definition encode_string (s : string) : list byte :=
  let payload := bytes_of_string s in
  control 2 (len payload) ++ payload.

(** Modelled from the spec: the canonical encoding of a value, type codes
    1 to 7 in the control byte and the extended types in the byte that
    follows it.  The list of the extended codes 1..8 in the specification
    gives uint64, uint128 and slice the codes 2, 3 and 4, int32 the code 6,
    bool 7 and float 8; uint32 and map have the primary codes 6 and 7. *)
Fixpoint encode (v : DataType) : list byte :=
  match v with
  | Pointer p => encode_pointer p
  | String s => encode_string s
  | Float64 bits => control 3 8 ++ be_bytes 8 bits
  | Bytes b => control 4 (len b) ++ b
  | Uint16 n => encode_uint 5 2 n
  | Uint32 n => encode_uint 6 4 n
  | Map kvs =>
      control 7 (len kvs) ++
      (fix pairs (l : list (string * DataType)) : list byte :=
         match l with
         | [] => []
         | (k, x) :: l' => encode_string k ++ encode x ++ pairs l'
         end) kvs
  | Int32 n =>
      if decide (0 ≤ n) then encode_uint 13 4 n
      else control 13 4 ++ be_bytes 4 n
  | Uint64 n => encode_uint 9 8 n
  | Uint128 n => encode_uint 10 16 n
  | Slice vs =>
      control 11 (len vs) ++
      (fix elems (l : list DataType) : list byte :=
         match l with
         | [] => []
         | x :: l' => encode x ++ elems l'
         end) vs
  | Bool b => control 14 (if b then 1 else 0)
  | Float32 bits => control 15 4 ++ be_bytes 4 bits
  end.

(** ** The data writer *)

(** Modelled from the spec: the data writer (section 4.4) is an append
    buffer and a pool from the canonical encoding of a value to the offset
    at which it was emitted.  The tree writer uses [newDataWriter], [write]
    and the field [buf]; their declarations are not among the sources. *)
Record dataWriter : Type := mkDataWriter {
  dw_buf : list byte;
  dw_pool : gmap (list Z) Z;
}.

(** Modelled from the spec: a fresh data writer has no cross-call state. *)
Definition newDataWriter : dataWriter :=
  {| dw_buf := []; dw_pool := ∅ |}.

(** Modelled from the spec: [write] returns the prior offset of a pooled
    value without emitting, and otherwise emits the value, records its
    offset and returns it. *)
Definition dataWriter_write (dw : dataWriter) (v : DataType)
  : dataWriter * Z * option error :=
  let b := encode v in
  match dw_pool dw !! b with
  | Some offset => (dw, offset, None)
  | None =>
      let offset := len (dw_buf dw) in
      ({| dw_buf := dw_buf dw ++ b; dw_pool := <[b := offset]> (dw_pool dw) |},
       offset, None)
  end.

(** ** The trie *)

(** Modelled from the spec: a node of the trie (section 3) is an internal
    node with two children and its number, or a leaf, empty or valued.  The
    struct [node] and its methods are not among the sources; the writer
    reads [children], [value] and [nodeNum] and calls [isLeaf], [insert],
    [get] and [finalize]. *)
Inductive node : Type :=
  | Leaf (value : option DataType)
  | Node (child0 child1 : node) (nodeNum : Z).

(** The root of a new tree, [&node{}]. *)
Definition emptyNode : node := Leaf None.

Definition isLeaf (n : node) : bool :=
  match n with Leaf _ => true | Node _ _ _ => false end.

Definition value (n : node) : option DataType :=
  match n with Leaf v => v | Node _ _ _ => None end.

Definition nodeNum (n : node) : Z :=
  match n with Leaf _ => 0 | Node _ _ k => k end.

(** Modelled from the spec: bit [depth] of a big-endian address, counted
    from the most significant bit of its first byte.  A bit past the end
    of the address reads as 0. *)
Definition bitAt (ip : list byte) (depth : Z) : bool :=
  Z.testbit (default 0 (ip !! Z.to_nat (depth `div` 8))) (7 - depth `mod` 8).

(** Modelled from the spec: a leaf on the path of an insertion becomes a
    node whose two children are copies of that leaf; the result is the two
    children and the number of the node. *)
Definition materialize (n : node) : node * node * Z :=
  match n with
  | Leaf v => (Leaf v, Leaf v, 0)
  | Node c0 c1 k => (c0, c1, k)
  end.

(** Modelled from the spec: the insert algorithm (section 4.1), with
    [remaining] the number of address bits between [depth] and the prefix
    length.  The slot reached after the last bit is replaced by a valued
    leaf; every node passed on the way is materialized. *)
Fixpoint insert_bits (remaining : nat) (n : node) (ip : list byte)
    (depth : Z) (v : DataType) : node :=
  match remaining with
  | O => Leaf (Some v)
  | S remaining' =>
      let '(c0, c1, k) := materialize n in
      if bitAt ip depth
      then Node c0 (insert_bits remaining' c1 ip (depth + 1) v) k
      else Node (insert_bits remaining' c0 ip (depth + 1) v) c1 k
  end.

(** Modelled from the spec: [n.insert(ip, prefixLen, depth, value)]. *)
Definition node_insert (n : node) (ip : list byte) (prefixLen depth : Z)
    (v : DataType) : node :=
  insert_bits (Z.to_nat (prefixLen - depth)) n ip depth v.

(** Modelled from the spec: [n.get(ip, depth)] descends along the bits of
    the address and stops at the first leaf, returning the depth at which
    it was found and its value. *)
Fixpoint node_get (n : node) (ip : list byte) (depth : Z)
  : Z * option DataType :=
  match n with
  | Leaf v => (depth, v)
  | Node c0 c1 _ =>
      if bitAt ip depth then node_get c1 ip (depth + 1)
      else node_get c0 ip (depth + 1)
  end.

(** Modelled from the spec: [n.finalize(currentNum)] numbers the internal
    nodes in pre-order (section 4.2): a leaf contributes nothing, a node
    takes the next number and then its left and right subtrees are
    numbered.  The result is the renumbered subtree and the next free
    number, which is the node count when the root is numbered from 0. *)
Fixpoint node_finalize (n : node) (currentNum : Z) : node * Z :=
  match n with
  | Leaf v => (Leaf v, currentNum)
  | Node c0 c1 _ =>
      let '(c0', next0) := node_finalize c0 (currentNum + 1) in
      let '(c1', next1) := node_finalize c1 next0 in
      (Node c0' c1' currentNum, next1)
  end.

(** ** Go's [net] package: addresses and masks *)

Module net.

(** [net.IPNet]: an address and a mask, each a byte slice. *)
Record IPNet : Type := mkIPNet {
  IP : list byte;
  Mask : list byte;
}.

(** The inner loop of [simpleMaskLength]:
    [for v&0x80 != 0 { n++; v <<= 1 }] on a byte [v], which is 0 after 8
    shifts at the latest. *)
Fixpoint leading_ones (fuel : nat) (n : Z) (v : byte) : Z * byte :=
  match fuel with
  | O => (n, v)
  | S fuel' =>
      if decide (Z.land v 0x80 ≠ 0)
      then leading_ones fuel' (n + 1) (byte_of_int (v ≪ 1))
      else (n, v)
  end.

(** [simpleMaskLength]: the number of leading 1 bits of a mask made of 1
    bits followed by 0 bits, and -1 for any other mask. *)
Fixpoint simpleMaskLength_from (n : Z) (mask : list byte) : Z :=
  match mask with
  | [] => n
  | v :: rest =>
      if decide (v = 0xff) then simpleMaskLength_from (n + 8) rest
      else
        let '(n', v') := leading_ones 8 n v in
        if decide (v' ≠ 0) then -1
        else if forallb (λ b, bool_decide (b = 0)) rest then n' else -1
  end.

Definition simpleMaskLength (mask : list byte) : Z :=
  simpleMaskLength_from 0 mask.

(** [IPMask.Size]: leading ones and total bits, [(0, 0)] for a mask that is
    not in canonical form. *)
Definition IPMask_Size (m : list byte) : Z * Z :=
  let ones := simpleMaskLength m in
  if decide (ones = -1) then (0, 0) else (ones, len m * 8).

(** The loop of [net.CIDRMask] over the [l] bytes of the mask, [n] ones
    left to place; [^byte(0xff >> n)] is [255 - (0xff >> n)]. *)
Fixpoint cidr_bytes (l : nat) (n : Z) : list byte :=
  match l with
  | O => []
  | S l' =>
      if decide (8 ≤ n) then 0xff :: cidr_bytes l' (n - 8)
      else (255 - (0xff ≫ n)) :: cidr_bytes l' 0
  end.

(** [net.CIDRMask(ones, bits)]; the nil mask is the empty list. *)
Definition CIDRMask (ones bits : Z) : list byte :=
  if decide (bits ≠ 32 ∧ bits ≠ 128) then []
  else if decide (ones < 0 ∨ ones > bits) then []
  else cidr_bytes (Z.to_nat (bits `div` 8)) ones.

Definition allFF (b : list byte) : bool :=
  forallb (λ c, bool_decide (c = 0xff)) b.

Definition isZeros (b : list byte) : bool :=
  forallb (λ c, bool_decide (c = 0)) b.

Definition v4InV6Prefix : list byte :=
  [0; 0; 0; 0; 0; 0; 0; 0; 0; 0; 0xff; 0xff].

(** [IP.To4]: [None] is the nil address. *)
Definition IP_To4 (ip : list byte) : option (list byte) :=
  if decide (len ip = 4) then Some ip
  else if bool_decide (len ip = 16)
          && isZeros (take 10 ip)
          && bool_decide (ip !! 10%nat = Some 0xff)
          && bool_decide (ip !! 11%nat = Some 0xff)
       then Some (drop 12 ip)
  else None.

(** [IP.Mask]: the nil address is the empty list. *)
Definition IP_Mask (ip mask : list byte) : list byte :=
  let mask :=
    if bool_decide (len mask = 16) && bool_decide (len ip = 4)
       && allFF (take 12 mask)
    then drop 12 mask else mask in
  let ip :=
    if bool_decide (len mask = 4) && bool_decide (len ip = 16)
       && bool_decide (take 12 ip = v4InV6Prefix)
    then drop 12 ip else ip in
  if decide (len ip ≠ len mask) then []
  else zip_with Z.land ip mask.

End net.

(** ** The caller's sink and Go's [bufio] and [bytes] packages *)

(** The byte sink handed to WriteTo, an [io.Writer]: it keeps the bytes it
    has accepted and, when [room] is [Some c], accepts [c] more bytes and
    fails with an error from there on.  A write that is cut short returns
    the number of bytes accepted and a non-nil error, as the contract of
    [io.Writer] asks. *)
Record Sink : Type := mkSink {
  accepted : list byte;
  room : option nat;
}.

Definition Sink_Write (w : Sink) (p : list byte) : Sink * Z * option error :=
  match room w with
  | None => ({| accepted := accepted w ++ p; room := None |}, len p, None)
  | Some c =>
      if decide (length p ≤ c)%nat
      then ({| accepted := accepted w ++ p; room := Some (c - length p)%nat |},
            len p, None)
      else ({| accepted := accepted w ++ take c p; room := Some 0%nat |},
            Z.of_nat c, Some ErrSink)
  end.

Module bufio.

(** [bufio.Writer]: the sticky error, the buffered bytes [buf[0:n]] and the
    underlying writer. *)
Record Writer : Type := mkWriter {
  b_err : option error;
  b_buf : list byte;
  b_wr : Sink;
}.

Definition defaultBufSize : Z := 4096.

Definition NewWriter (w : Sink) : Writer :=
  {| b_err := None; b_buf := []; b_wr := w |}.

Definition Buffered (b : Writer) : Z := len (b_buf b).

Definition Available (b : Writer) : Z := defaultBufSize - len (b_buf b).

(** [bufio.Writer.Flush]. *)
Definition Flush (b : Writer) : Writer * option error :=
  match b_err b with
  | Some e => (b, Some e)
  | None =>
      if decide (Buffered b = 0) then (b, None)
      else
        let '(wr, n, err) := Sink_Write (b_wr b) (b_buf b) in
        let err :=
          if bool_decide (n < Buffered b) && bool_decide (err = None)
          then Some ErrShortWrite else err in
        match err with
        | Some e =>
            ({| b_err := Some e; b_buf := drop (Z.to_nat n) (b_buf b);
                b_wr := wr |}, Some e)
        | None => ({| b_err := None; b_buf := []; b_wr := wr |}, None)
        end
  end.

(** The loop of [bufio.Writer.Write]:
    [for len(p) > b.Available() && b.err == nil].  It returns the writer,
    what is left of [p] and the bytes taken so far. *)
Fixpoint Write_loop (fuel : nat) (b : Writer) (p : list byte)
    (nn : Z) : Writer * list byte * Z :=
  match fuel with
  | O => (b, p, nn)
  | S fuel' =>
      if bool_decide (len p > Available b) && bool_decide (b_err b = None)
      then
        if decide (Buffered b = 0) then
          (* Large write, empty buffer: write directly from p. *)
          let '(wr, n, err) := Sink_Write (b_wr b) p in
          Write_loop fuel'
            {| b_err := err; b_buf := b_buf b; b_wr := wr |}
            (drop (Z.to_nat n) p) (nn + n)
        else
          let n := Z.min (Available b) (len p) in
          let b := {| b_err := b_err b;
                      b_buf := b_buf b ++ take (Z.to_nat n) p;
                      b_wr := b_wr b |} in
          let '(b, _) := Flush b in
          Write_loop fuel' b (drop (Z.to_nat n) p) (nn + n)
      else (b, p, nn)
  end.

(** [bufio.Writer.Write].  With this sink the loop runs at most twice (a
    flush of the buffered bytes, then a direct write of what is left);
    [bufio_Write_loop_fuel] below shows that more rounds change nothing. *)
Definition Write (b : Writer) (p : list byte)
  : Writer * Z * option error :=
  let '(b, p, nn) := Write_loop 2 b p 0 in
  match b_err b with
  | Some e => (b, nn, Some e)
  | None =>
      let n := Z.min (Available b) (len p) in
      ({| b_err := None; b_buf := b_buf b ++ take (Z.to_nat n) p;
          b_wr := b_wr b |}, nn + n, None)
  end.

End bufio.

Module bytes.

(** [bytes.Buffer.WriteTo] on a buffer holding [data]. *)
Definition Buffer_WriteTo (data : list byte) (w : bufio.Writer)
  : bufio.Writer * Z * option error :=
  if decide (len data > 0) then
    let '(w, m, e) := bufio.Write w data in
    match e with
    | Some e => (w, m, Some e)
    | None =>
        if decide (m ≠ len data) then (w, m, Some ErrShortWrite)
        else (w, m, None)
    end
  else (w, 0, None).

End bytes.

(** Modelled from the spec: [writeTo] of a data value emits its canonical
    encoding; the method is not among the sources. *)
Definition DataType_writeTo (v : DataType) (w : bufio.Writer)
  : bufio.Writer * Z * option error :=
  bufio.Write w (encode v).

(** ** The tree *)

Local Infix ".&." := Z.land (at level 40, left associativity).
Local Infix ".|." := Z.lor (at level 50, left associativity).

Definition metadataStartMarker : list byte :=
  [0xAB; 0xCD; 0xEF] ++ bytes_of_string "MaxMind.com".

Definition dataSectionSeparator : list byte :=
  [0; 0; 0; 0; 0; 0; 0; 0; 0; 0; 0; 0; 0; 0; 0; 0].

(** Options holds configuration parameters for the writer; a nil map or
    slice is [None]. *)
Record Options : Type := mkOptions {
  BuildEpoch : Z;
  DatabaseType : string;
  Description : option (gmap string string);
  IPVersion : Z;
  Languages : option (list string);
  RecordSize : Z;
}.

Record Tree : Type := mkTree {
  buildEpoch : Z;
  databaseType : string;
  description : gmap string string;
  ipVersion : Z;
  languages : list string;
  recordSize : Z;
  root : node;
  treeDepth : Z;
  (* This is set when the tree is finalized *)
  nodeCount : Z;
}.

(** The result of a function that returns a pointer and an error, exactly
    one of them nil. *)
Inductive result (A : Type) : Type :=
  | Ok (a : A)
  | Err (e : error).
Arguments Ok {A} a.
Arguments Err {A} e.

(** New creates a new Tree; [now] is [time.Now().Unix()]. *)
Definition New (now : Z) (opts : Options) : result Tree :=
  let buildEpoch := if decide (BuildEpoch opts ≠ 0) then BuildEpoch opts else now in
  let description := default ∅ (Description opts) in
  let ipVersion := if decide (IPVersion opts ≠ 0) then IPVersion opts else 6 in
  let languages := default [] (Languages opts) in
  let recordSize := if decide (RecordSize opts ≠ 0) then RecordSize opts else 28 in
  let tree treeDepth :=
    {| buildEpoch := buildEpoch;
       databaseType := DatabaseType opts;
       description := description;
       ipVersion := ipVersion;
       languages := languages;
       recordSize := recordSize;
       root := emptyNode;
       treeDepth := treeDepth;
       nodeCount := 0 |} in
  if decide (ipVersion = 6) then Ok (tree 128)
  else if decide (ipVersion = 4) then Ok (tree 32)
  else Err (ErrUnsupportedIPVersion ipVersion).

Definition set_nodeCount (t : Tree) (k : Z) : Tree :=
  {| buildEpoch := buildEpoch t; databaseType := databaseType t;
     description := description t; ipVersion := ipVersion t;
     languages := languages t; recordSize := recordSize t;
     root := root t; treeDepth := treeDepth t; nodeCount := k |}.

Definition set_root (t : Tree) (r : node) : Tree :=
  {| buildEpoch := buildEpoch t; databaseType := databaseType t;
     description := description t; ipVersion := ipVersion t;
     languages := languages t; recordSize := recordSize t;
     root := r; treeDepth := treeDepth t; nodeCount := nodeCount t |}.

Definition v4Prefix : list byte := [0; 0; 0; 0; 0; 0; 0; 0; 0; 0; 0; 0].

Definition ipV4ToV6 (ip : list byte) : list byte := v4Prefix ++ ip.

(** Insert a data value into the tree.  The result is the tree after the
    call and the error returned. *)
Definition Insert (t : Tree) (network : net.IPNet) (value : DataType)
  : Tree * option error :=
  (* We set this to 0 so that the tree must be finalized again. *)
  let t := set_nodeCount t 0 in
  let prefixLen := (net.IPMask_Size (net.Mask network)).1 in
  if decide (prefixLen = 0) then (t, Some ErrInsertRoot)
  else
    let ip := net.IP network in
    let '(ip, prefixLen) :=
      if bool_decide (treeDepth t = 128) && bool_decide (len ip = 4)
      then (ipV4ToV6 ip, prefixLen + 96) else (ip, prefixLen) in
    (set_root t (node_insert (root t) ip prefixLen 0 value), None).

(** Get the value for the given IP address from the tree. *)
Definition Get (t : Tree) (ip : list byte) : net.IPNet * option DataType :=
  let lookupIP :=
    if decide (treeDepth t = 128) then
      match net.IP_To4 ip with
      | Some ipv4 => ipV4ToV6 ipv4
      | None => ip
      end
    else ip in
  let '(prefixLen, value) := node_get (root t) lookupIP 0 in
  let prefixLen :=
    if bool_decide (prefixLen >= 96) && bool_decide (len ip = 4)
    then prefixLen - 96 else prefixLen in
  let mask := net.CIDRMask prefixLen (treeDepth t) in
  ({| net.IP := net.IP_Mask ip mask; net.Mask := mask |}, value).

(** Finalize prepares the tree for writing. *)
Definition Finalize (t : Tree) : Tree :=
  let '(r, count) := node_finalize (root t) 0 in
  set_nodeCount (set_root t r) count.

Definition recordValueForNode (t : Tree) (n : node) (dw : dataWriter)
  : dataWriter * Z * option error :=
  if isLeaf n then
    match value n with
    | Some v =>
        let '(dw, offset, err) := dataWriter_write dw v in
        (dw, nodeCount t + len dataSectionSeparator + offset, err)
    | None => (dw, nodeCount t, None)
    end
  else (dw, nodeNum n, None).

(** copyRecord fills [buf] with the record of the two children.  The result
    is [None] when a store is out of the range of [buf]. *)
Definition copyRecord (t : Tree) (buf : list byte) (children : node * node)
    (dw : dataWriter)
  : option (list byte * dataWriter * option error) :=
  let '(dw, left_, err) := recordValueForNode t children.1 dw in
  match err with
  | Some e => Some (buf, dw, Some e)
  | None =>
  let '(dw, right_, err) := recordValueForNode t children.2 dw in
  match err with
  | Some e => Some (buf, dw, Some e)
  | None =>
  (* XXX check max size *)
  if decide (recordSize t = 24) then
    buf ← store buf 0 (byte_of_int ((left_ ≫ 16) .&. 0xFF));
    buf ← store buf 1 (byte_of_int ((left_ ≫ 8) .&. 0xFF));
    buf ← store buf 2 (byte_of_int (left_ .&. 0xFF));
    buf ← store buf 3 (byte_of_int ((right_ ≫ 16) .&. 0xFF));
    buf ← store buf 4 (byte_of_int ((right_ ≫ 8) .&. 0xFF));
    buf ← store buf 5 (byte_of_int (right_ .&. 0xFF));
    Some (buf, dw, None)
  else if decide (recordSize t = 28) then
    buf ← store buf 0 (byte_of_int ((left_ ≫ 16) .&. 0xFF));
    buf ← store buf 1 (byte_of_int ((left_ ≫ 8) .&. 0xFF));
    buf ← store buf 2 (byte_of_int (left_ .&. 0xFF));
    buf ← store buf 3
            (byte_of_int ((((left_ ≫ 24) .&. 0x0F) ≪ 4)
                          .|. (right_ ≫ 24 .&. 0x0F)));
    buf ← store buf 4 (byte_of_int ((right_ ≫ 16) .&. 0xFF));
    buf ← store buf 5 (byte_of_int ((right_ ≫ 8) .&. 0xFF));
    buf ← store buf 6 (byte_of_int (right_ .&. 0xFF));
    Some (buf, dw, None)
  else if decide (recordSize t = 32) then
    buf ← store buf 0 (byte_of_int ((left_ ≫ 24) .&. 0xFF));
    buf ← store buf 1 (byte_of_int ((left_ ≫ 16) .&. 0xFF));
    buf ← store buf 2 (byte_of_int ((left_ ≫ 8) .&. 0xFF));
    buf ← store buf 3 (byte_of_int (left_ .&. 0xFF));
    buf ← store buf 4 (byte_of_int ((right_ ≫ 24) .&. 0xFF));
    buf ← store buf 5 (byte_of_int ((right_ ≫ 16) .&. 0xFF));
    buf ← store buf 6 (byte_of_int ((right_ ≫ 8) .&. 0xFF));
    buf ← store buf 7 (byte_of_int (right_ .&. 0xFF));
    Some (buf, dw, None)
  else Some (buf, dw, Some (ErrUnsupportedRecordSize (recordSize t)))
  end end.

(** writeNode writes the records of the subtree [n] in pre-order.  The
    state threaded through the calls is the writer, the data writer and the
    record buffer, all three shared by reference in the source; the result
    is [(nodesWritten, numBytes, err)]. *)
Fixpoint writeNode (t : Tree) (w : bufio.Writer) (n : node) (dw : dataWriter)
    (recordBuf : list byte)
  : option (bufio.Writer * dataWriter * list byte * (Z * Z * option error)) :=
  match n with
  | Leaf _ => Some (w, dw, recordBuf, (0, 0, None))
  | Node child0 child1 _ =>
      '(recordBuf, dw, err) ← copyRecord t recordBuf (child0, child1) dw;
      match err with
      | Some e => Some (w, dw, recordBuf, (0, 0, Some e))
      | None =>
      let numBytes := 0 in
      let '(w, nb, err) := bufio.Write w recordBuf in
      let numBytes := numBytes + nb in
      let nodesWritten := 1 in
      match err with
      | Some e =>
          Some (w, dw, recordBuf,
                (nodesWritten, numBytes, Some (ErrWrap e "error writing node")))
      | None =>
      '(w, dw, recordBuf, (leftNodes, leftNumBytes, err)) ←
        writeNode t w child0 dw recordBuf;
      let nodesWritten := nodesWritten + leftNodes in
      let numBytes := numBytes + leftNumBytes in
      match err with
      | Some e => Some (w, dw, recordBuf, (nodesWritten, numBytes, Some e))
      | None =>
      '(w, dw, recordBuf, (rightNodes, rightNumBytes, err)) ←
        writeNode t w child1 dw recordBuf;
      let nodesWritten := nodesWritten + rightNodes in
      let numBytes := numBytes + rightNumBytes in
      Some (w, dw, recordBuf, (nodesWritten, numBytes, err))
      end end end
  end.

(** The metadata map built by writeMetadata.  The conversions to the
    unsigned types wrap. *)
Definition metadata (t : Tree) : DataType :=
  let description :=
    (λ kv : string * string, (kv.1, String kv.2)) <$> map_to_list (description t) in
  let languages := String <$> languages t in
  Map [
    ("binary_format_major_version"%string, Uint16 2);
    ("binary_format_minor_version"%string, Uint16 0);
    ("build_epoch"%string, Uint64 (buildEpoch t `mod` 2 ^ 64));
    ("database_type"%string, String (databaseType t));
    ("description"%string, Map description);
    ("ip_version"%string, Uint16 (ipVersion t `mod` 2 ^ 16));
    ("languages"%string, Slice languages);
    ("node_count"%string, Uint32 (nodeCount t `mod` 2 ^ 32));
    ("record_size"%string, Uint16 (recordSize t `mod` 2 ^ 16))
  ].

Definition writeMetadata (t : Tree) (w : bufio.Writer)
  : bufio.Writer * Z * option error :=
  DataType_writeTo (metadata t) w.

(** WriteTo writes the tree to the provided Writer.  The result is the sink
    after the call, the byte count and the error; it is [None] when the
    call panics. *)
Definition WriteTo (t : Tree) (w : Sink) : option (Sink * Z * option error) :=
  if decide (nodeCount t = 0) then Some (w, 0, Some ErrNotFinalized)
  else
    let buf := bufio.NewWriter w in
    recordBuf ← make_bytes (wrap_int (2 * recordSize t) `quot` 8);
    let dataWriter := newDataWriter in
    '(buf, dataWriter, recordBuf, (nodeCount', numBytes, err)) ←
      writeNode t buf (root t) dataWriter recordBuf;
    match err with
    | Some e =>
        let '(buf, _) := bufio.Flush buf in
        Some (bufio.b_wr buf, numBytes, Some e)
    | None =>
    if decide (nodeCount' ≠ nodeCount t) then
      let '(buf, _) := bufio.Flush buf in
      (* This should only happen if there is a programming bug
         in this library. *)
      Some (bufio.b_wr buf, numBytes, Some (ErrNodeCount nodeCount' (nodeCount t)))
    else
    let '(buf, nb, err) := bufio.Write buf dataSectionSeparator in
    let numBytes := numBytes + nb in
    match err with
    | Some e =>
        let '(buf, _) := bufio.Flush buf in
        Some (bufio.b_wr buf, numBytes,
              Some (ErrWrap e "error writing data section separator"))
    | None =>
    let '(buf, nb64, err) := bytes.Buffer_WriteTo (dw_buf dataWriter) buf in
    let numBytes := numBytes + nb64 in
    match err with
    | Some e =>
        let '(buf, _) := bufio.Flush buf in
        Some (bufio.b_wr buf, numBytes, Some e)
    | None =>
    let '(buf, nb, err) := bufio.Write buf metadataStartMarker in
    let numBytes := numBytes + nb in
    match err with
    | Some e =>
        let '(buf, _) := bufio.Flush buf in
        Some (bufio.b_wr buf, numBytes,
              Some (ErrWrap e "error writing metadata start marker"))
    | None =>
    let '(buf, nb64, err) := writeMetadata t buf in
    let numBytes := numBytes + nb64 in
    match err with
    | Some e =>
        let '(buf, _) := bufio.Flush buf in
        Some (bufio.b_wr buf, numBytes, Some (ErrWrap e "error writing metadata"))
    | None =>
    let '(buf, err) := bufio.Flush buf in
    match err with
    | Some e =>
        Some (bufio.b_wr buf, numBytes,
              Some (ErrWrap e "error flushing buffer to writer"))
    | None => Some (bufio.b_wr buf, numBytes, None)
    end end end end end end.

(** ** The reader's side of a record *)

(** The value of a big-endian byte sequence. *)
Definition be_value (b : list byte) : Z :=
  foldl (λ acc x, acc * 256 + x) 0 b.

(** The bit layout of a record as the specification gives it (section 4.3),
    read back: 24 and 32 bits are two big-endian integers; with 28 bits the
    upper nibble of byte 3 is put above bytes 0..2 and its lower nibble
    above bytes 4..6.  A buffer of another length than [2 * size / 8], or
    another size, has no reading. *)
Definition unpackRecord (size : Z) (buf : list byte) : option (Z * Z) :=
  if decide (len buf ≠ (2 * size) `quot` 8) then None
  else if decide (size = 24) then
    Some (be_value (take 3 buf), be_value (take 3 (drop 3 buf)))
  else if decide (size = 28) then
    b3 ← buf !! 3%nat;
    Some ((b3 ≫ 4) * 2 ^ 24 + be_value (take 3 buf),
          (b3 .&. 0x0F) * 2 ^ 24 + be_value (take 3 (drop 4 buf)))
  else if decide (size = 32) then
    Some (be_value (take 4 buf), be_value (take 4 (drop 4 buf)))
  else None.

(** ** The layout of the file

    The node section as the specification describes it: the records of the
    internal nodes in pre-order, each the packing of the record values of
    its two children. *)

(** The internal nodes of a subtree in pre-order, each as the pair of its
    children. *)
Fixpoint preorder (n : node) : list (node * node) :=
  match n with
  | Leaf _ => []
  | Node c0 c1 _ => (c0, c1) :: preorder c0 ++ preorder c1
  end.

(** The numbers of the internal nodes of a subtree in pre-order. *)
Fixpoint nodeNums (n : node) : list Z :=
  match n with
  | Leaf _ => []
  | Node c0 c1 num => num :: nodeNums c0 ++ nodeNums c1
  end.

(** The packing of section 4.3: two big-endian integers of 24 or 32 bits;
    with 28 bits the low 24 bits of each side around a byte made of the two
    high nibbles. *)
Definition packRecord (size l r : Z) : list byte :=
  if decide (size = 24) then be_bytes 3 l ++ be_bytes 3 r
  else if decide (size = 28) then
    be_bytes 3 l
    ++ [(((l ≫ 24) .&. 0x0F) ≪ 4) .|. ((r ≫ 24) .&. 0x0F)]
    ++ be_bytes 3 r
  else if decide (size = 32) then be_bytes 4 l ++ be_bytes 4 r
  else [].

(** The records of a list of slots and the data writer after them: the
    values of the left and right child are computed in that order, so the
    offsets of the data section grow in pre-order. *)
Fixpoint nodeSection (t : Tree) (slots : list (node * node)) (dw : dataWriter)
  : list byte * dataWriter :=
  match slots with
  | [] => ([], dw)
  | (c0, c1) :: slots' =>
      let '(dw, l, _) := recordValueForNode t c0 dw in
      let '(dw, r, _) := recordValueForNode t c1 dw in
      let '(bytes, dw) := nodeSection t slots' dw in
      (packRecord (recordSize t) l r ++ bytes, dw)
  end.

(** ** The record values as the specification gives them

    Section 4.2 of the specification gives the record value of a child slot
    by three cases: the number of the child when it is an internal node,
    the node count when it is an empty leaf, and the node count plus 16
    plus [o] when it is a valued leaf, [o] being the offset that the data
    writer returns for the value of the leaf. *)
Definition recordValue_spec (count : Z) (child : node) (dw : dataWriter)
  : dataWriter * Z :=
  match child with
  | Node _ _ num => (dw, num)
  | Leaf None => (dw, count)
  | Leaf (Some v) =>
      let '(dw, o, _) := dataWriter_write dw v in
      (dw, count + 16 + o)
  end.

(** The pairs of record values of a list of slots, the left value of a slot
    before its right one, and the data writer after them. *)
Fixpoint recordValues_spec (count : Z) (slots : list (node * node))
    (dw : dataWriter) : list (Z * Z) * dataWriter :=
  match slots with
  | [] => ([], dw)
  | (c0, c1) :: slots' =>
      let '(dw, l) := recordValue_spec count c0 dw in
      let '(dw, r) := recordValue_spec count c1 dw in
      let '(values, dw) := recordValues_spec count slots' dw in
      ((l, r) :: values, dw)
  end.

(** The packed records of a list of pairs of record values. *)
Definition packRecords (size : Z) (values : list (Z * Z)) : list byte :=
  concat ((λ lr : Z * Z, packRecord size lr.1 lr.2) <$> values).

(** The three ranges of a record value for a reader of the file that holds
    [count] nodes and a data section of [dataLen] bytes: below [count] the
    number of a node, which is not the root; [count] for no data; from
    [count + 16] on a position in the data section. *)
Definition valueInRange (count dataLen : Z) (child : node) (x : Z) : Prop :=
  match child with
  | Node _ _ _ => 0 < x < count
  | Leaf None => x = count
  | Leaf (Some _) => count + 16 ≤ x < count + 16 + dataLen
  end.

(** Every offset of the pool of a data writer lies in its buffer. *)
Definition pool_ok (dw : dataWriter) : Prop :=
  ∀ (b : list Z) (o : Z), dw_pool dw !! b = Some o → 0 ≤ o < len (dw_buf dw).

(** The database file of a tree: the node section, the separator, the data
    section that the node section has filled, the marker and the metadata. *)
Definition databaseFile (t : Tree) : list byte :=
  let '(nodes, dw) := nodeSection t (preorder (root t)) newDataWriter in
  nodes ++ dataSectionSeparator ++ dw_buf dw ++ metadataStartMarker
        ++ encode (metadata t).

(** ** The state of a buffered writer *)

(** The bytes that have gone through the writer, those that the sink has
    accepted followed by those still buffered. *)
Definition stream (b : bufio.Writer) : list byte :=
  accepted (bufio.b_wr b) ++ bufio.b_buf b.
(** No more than the buffer size is buffered. *)
Definition bufio_wf (b : bufio.Writer) : Prop :=
  len (bufio.b_buf b) ≤ bufio.defaultBufSize.

(** A writer that has not failed, over a sink without a limit. *)
Definition open_writer (b : bufio.Writer) : Prop :=
  bufio_wf b ∧ bufio.b_err b = None ∧ room (bufio.b_wr b) = None.

(** The writer [b'] comes from [b] by taking the bytes [x]: they have gone
    into the stream in order, and the sink has only grown. *)
Definition takes (b b' : bufio.Writer) (x : list byte) : Prop :=
  bufio_wf b' ∧ stream b' = stream b ++ x ∧
  accepted (bufio.b_wr b) `prefix_of` accepted (bufio.b_wr b').

(** The sticky error of a writer over this sink is the error of the sink. *)
Definition sink_err (b : bufio.Writer) : Prop :=
  bufio.b_err b = None ∨ bufio.b_err b = Some ErrSink.

(** ** Trees that are not finalized

    A tree is not finalized when it comes from New or when the last call
    that changed it was an Insert, whatever that Insert returned. *)
Inductive unfinalized : Tree → Prop :=
  | unfinalized_New (now : Z) (opts : Options) (t : Tree) :
      New now opts = Ok t → unfinalized t
  | unfinalized_Insert (t : Tree) (network : net.IPNet) (v : DataType) :
      unfinalized (Insert t network v).1.

(** ** Trees into which no network has been inserted

    The tree comes from New, and since then every Insert has returned an
    error; it may have been finalized. *)
Inductive never_inserted : Tree → Prop :=
  | never_inserted_New (now : Z) (opts : Options) (t : Tree) :
      New now opts = Ok t → never_inserted t
  | never_inserted_rejected (t : Tree) (network : net.IPNet) (v : DataType)
      (e : error) :
      never_inserted t → (Insert t network v).2 = Some e →
      never_inserted (Insert t network v).1
  | never_inserted_Finalize (t : Tree) :
      never_inserted t → never_inserted (Finalize t).

(** ** Concrete trees

    The inputs at which the statements below are evaluated. *)

Definition someOptions (ipVersion recordSize : Z) : Options :=
  {| BuildEpoch := 1600000000; DatabaseType := "Test"; Description := None;
     IPVersion := ipVersion; Languages := None; RecordSize := recordSize |}.

(** The tree that New returns for [opts], and the tree with no field set
    when it returns an error. *)
Definition newTree (opts : Options) : Tree :=
  match New 0 opts with
  | Ok t => t
  | Err _ => mkTree 0 "" ∅ 0 [] 0 emptyNode 0 0
  end.

(** An IPv6 tree with 28-bit records and an IPv4 tree with 24-bit records. *)
Definition tree6 : Tree := newTree (someOptions 6 28).
Definition tree4 : Tree := newTree (someOptions 4 24).

(** 1.1.1.1/32 and 0.0.0.0/0 with 4-byte addresses and masks; ::/1 and
    8000::/2 with 16-byte ones. *)
Definition net_1_1_1_1 : net.IPNet :=
  {| net.IP := [1; 1; 1; 1]; net.Mask := [255; 255; 255; 255] |}.
Definition net_any4 : net.IPNet :=
  {| net.IP := [0; 0; 0; 0]; net.Mask := [0; 0; 0; 0] |}.
Definition net6_low : net.IPNet :=
  {| net.IP := replicate 16 0; net.Mask := 128 :: replicate 15 0 |}.
Definition net6_high : net.IPNet :=
  {| net.IP := 128 :: replicate 15 0; net.Mask := 192 :: replicate 15 0 |}.

(** [tree6] with 1.1.1.1/32 inserted and finalized: 128 nodes. *)
Definition tree6_one : Tree :=
  Finalize (Insert tree6 net_1_1_1_1 (String "A")).1.

(** [tree6] with ::/1 and 8000::/2 inserted and finalized: 2 nodes. *)
Definition tree6_two : Tree :=
  Finalize (Insert (Insert tree6 net6_low (String "A")).1
                   net6_high (Map [("country"%string, String "US")])).1.

(** A sink without a limit, and one that accepts ten bytes. *)
Definition sink_open : Sink := {| accepted := []; room := None |}.
Definition sink_ten : Sink := {| accepted := []; room := Some 10%nat |}.

(** The 220 bytes of the database of [tree6_two]: two records of 7 bytes,
    the separator, the two values, the marker and the metadata. *)
Definition file_two : list byte :=
  [0; 0; 18; 0; 0; 0; 1; 0; 0; 20; 0; 0; 0; 2; 0; 0; 0; 0; 0; 0; 0; 0; 0; 0;
   0; 0; 0; 0; 0; 0; 65; 65; 225; 71; 99; 111; 117; 110; 116; 114; 121; 66;
   85; 83; 171; 205; 239; 77; 97; 120; 77; 105; 110; 100; 46; 99; 111; 109;
   233; 91; 98; 105; 110; 97; 114; 121; 95; 102; 111; 114; 109; 97; 116; 95;
   109; 97; 106; 111; 114; 95; 118; 101; 114; 115; 105; 111; 110; 161; 2; 91;
   98; 105; 110; 97; 114; 121; 95; 102; 111; 114; 109; 97; 116; 95; 109; 105;
   110; 111; 114; 95; 118; 101; 114; 115; 105; 111; 110; 160; 75; 98; 117;
   105; 108; 100; 95; 101; 112; 111; 99; 104; 4; 2; 95; 94; 16; 0; 77; 100;
   97; 116; 97; 98; 97; 115; 101; 95; 116; 121; 112; 101; 68; 84; 101; 115;
   116; 75; 100; 101; 115; 99; 114; 105; 112; 116; 105; 111; 110; 224; 74;
   105; 112; 95; 118; 101; 114; 115; 105; 111; 110; 161; 6; 73; 108; 97; 110;
   103; 117; 97; 103; 101; 115; 0; 4; 74; 110; 111; 100; 101; 95; 99; 111;
   117; 110; 116; 193; 2; 75; 114; 101; 99; 111; 114; 100; 95; 115; 105; 122;
   101; 161; 28].

(** An IPv6 tree with 24-bit records; 8000::/1; the tree with [big] under
    ::/1 and the string A under 8000::/1, finalized: one node, two valued
    leaves. *)
Definition tree6_24 : Tree := newTree (someOptions 6 24).
Definition net6_top : net.IPNet :=
  {| net.IP := 128 :: replicate 15 0; net.Mask := 128 :: replicate 15 0 |}.
Definition tree_of_two (big : DataType) : Tree :=
  Finalize (Insert (Insert tree6_24 net6_low big).1 net6_top (String "A")).1.

(** An IPv6 tree with records of 16 bits, which the format does not have,
    with ::/1 inserted and finalized: one node. *)
Definition tree6_16_one : Tree :=
  Finalize (Insert (newTree (someOptions 6 16)) net6_low (String "A")).1.

(** The same tree with a record size of -8. *)
Definition tree6_neg : Tree :=
  Finalize (Insert (newTree (someOptions 6 (-8))) net6_low (String "A")).1.

(** 16777195 zero bytes, a value of 16777199 encoded bytes. *)
Definition zeros_16M : list byte := replicate (Z.to_nat 16777195) 0.

(** 10.0.0.0/8 and 10.1.0.0/16; 2001:db8::/32 and 2001:db9::/32; a map. *)
Definition net_10_8 : net.IPNet :=
  {| net.IP := [10; 0; 0; 0]; net.Mask := [255; 0; 0; 0] |}.
Definition net_10_1_16 : net.IPNet :=
  {| net.IP := [10; 1; 0; 0]; net.Mask := [255; 255; 0; 0] |}.
Definition net_db8 : net.IPNet :=
  {| net.IP := [0x20; 0x01; 0x0d; 0xb8] ++ replicate 12 0;
     net.Mask := [255; 255; 255; 255] ++ replicate 12 0 |}.
Definition net_db9 : net.IPNet :=
  {| net.IP := [0x20; 0x01; 0x0d; 0xb9] ++ replicate 12 0;
     net.Mask := [255; 255; 255; 255] ++ replicate 12 0 |}.
Definition country_US : DataType := Map [("country"%string, String "US")].

(** * Properties *)

(** ** Bit arithmetic of the record packer *)

Lemma wrap_int_small (x : Z) : - 2 ^ 63 ≤ x < 2 ^ 63 → wrap_int x = x.
Proof. intros Hx. unfold wrap_int. rewrite Z.mod_small by lia. lia. Qed.

Lemma recordBuf_size (size : Z) :
  size = 24 ∨ size = 28 ∨ size = 32 →
  wrap_int (2 * size) `quot` 8 = (2 * size) `quot` 8.
Proof. by intros [->|[->| ->]]. Qed.

Lemma byte_of_int_land (x : Z) : byte_of_int (x .&. 0xFF) = x `mod` 256.
Proof.
  unfold byte_of_int. change 0xFF with (Z.ones 8).
  rewrite Z.land_ones by lia. change (2 ^ 8) with 256.
  apply Z.mod_mod. lia.
Qed.

Lemma nibble_land (x : Z) : x .&. 0x0F = x `mod` 16.
Proof. change 0x0F with (Z.ones 4). by rewrite Z.land_ones by lia. Qed.

(** Two nibbles side by side make a byte. *)
Lemma nibbles_lor (a b : Z) :
  0 ≤ a < 16 → 0 ≤ b < 16 → (a ≪ 4) .|. b = a * 16 + b.
Proof.
  intros Ha Hb. rewrite Z.shiftl_mul_pow2 by lia. change (2 ^ 4) with 16.
  assert (Z.land (a * 16) b = 0) as Hdisjoint.
  { apply Z.bits_inj'. intros n Hn.
    rewrite Z.land_spec, Z.bits_0.
    destruct (decide (n < 4)).
    - replace (a * 16) with (a * 2 ^ 4) by lia.
      rewrite Z.mul_pow2_bits_low by lia. done.
    - replace b with (b `mod` 2 ^ 4) by (apply Z.mod_small; lia).
      rewrite Z.mod_pow2_bits_high by lia. apply andb_false_r. }
  by rewrite <-Z.lxor_lor, <-Z.add_nocarry_lxor.
Qed.

Ltac shift_to_div :=
  rewrite ?byte_of_int_land, ?nibble_land, ?Z.shiftr_div_pow2 by lia.

Lemma store_Some (buf : list byte) (i : nat) (v : byte) :
  (i < length buf)%nat → store buf i v = Some (<[i := v]> buf).
Proof. intros. unfold store. by rewrite decide_True. Qed.

(** ** The record packer *)

(** C1.  For each record size 24, 28 and 32 and every pair of record values
    [l], [r] below [2 ^ recordSize], the record that copyRecord packs into
    the buffer of [2 * recordSize / 8] bytes reads back as [(l, r)] under
    the bit layout of the specification; with 28 bits, byte 3 carries the
    high nibble of [l] in its upper four bits and the high nibble of [r]
    in its lower four bits. *)
Theorem copyRecord_roundtrip (t : Tree) (buf : list byte) (c0 c1 : node)
    (dw dw1 dw2 : dataWriter) (l r : Z) :
  recordSize t = 24 ∨ recordSize t = 28 ∨ recordSize t = 32 →
  len buf = (2 * recordSize t) `quot` 8 →
  recordValueForNode t c0 dw = (dw1, l, None) →
  recordValueForNode t c1 dw1 = (dw2, r, None) →
  0 ≤ l < 2 ^ recordSize t →
  0 ≤ r < 2 ^ recordSize t →
  ∃ buf',
    copyRecord t buf (c0, c1) dw = Some (buf', dw2, None) ∧
    unpackRecord (recordSize t) buf' = Some (l, r) ∧
    (recordSize t = 28 →
     ∃ b3, buf' !! 3%nat = Some b3 ∧ 0 ≤ b3 < 256 ∧
           b3 ≫ 4 = l ≫ 24 ∧ b3 .&. 0x0F = r ≫ 24).
Proof.
  intros Hsz Hlen Hl Hr Hlr Hrr.
  unfold copyRecord. cbn [fst snd]. rewrite Hl, Hr.
  destruct Hsz as [Hsz|[Hsz|Hsz]]; rewrite Hsz in *; unfold len in Hlen.
  - change ((2 * 24) `quot` 8) with 6 in Hlen.
    do 7 (destruct buf as [|? buf]; try (simpl in Hlen; lia)).
    rewrite decide_True by done. cbn.
    eexists; split; [done|]. split; [|intros; lia].
    unfold unpackRecord. cbn. shift_to_div.
    f_equal. f_equal; Z.div_mod_to_equations; lia.
  - change ((2 * 28) `quot` 8) with 7 in Hlen.
    do 8 (destruct buf as [|? buf]; try (simpl in Hlen; lia)).
    rewrite decide_False, decide_True by done. cbn.
    assert (0 ≤ l ≫ 24 < 16 ∧ 0 ≤ r ≫ 24 < 16) as [Hl4 Hr4].
    { rewrite !Z.shiftr_div_pow2 by lia. split; Z.div_mod_to_equations; lia. }
    assert (byte_of_int (((l ≫ 24 .&. 15) ≪ 4) .|. (r ≫ 24 .&. 15))
            = (l ≫ 24) * 16 + r ≫ 24) as Hb3.
    { rewrite !nibble_land, !Z.mod_small by lia.
      rewrite nibbles_lor by lia. unfold byte_of_int. apply Z.mod_small. lia. }
    rewrite Hb3.
    eexists; split; [done|]. split.
    + unfold unpackRecord. cbn. shift_to_div.
      f_equal. f_equal; Z.div_mod_to_equations; lia.
    + intros _. eexists; split; [done|]. split; [lia|].
      shift_to_div. split; Z.div_mod_to_equations; lia.
  - change ((2 * 32) `quot` 8) with 8 in Hlen.
    do 9 (destruct buf as [|? buf]; try (simpl in Hlen; lia)).
    rewrite !decide_False, decide_True by done. cbn.
    eexists; split; [done|]. split; [|intros; lia].
    unfold unpackRecord. cbn. shift_to_div.
    f_equal. f_equal; Z.div_mod_to_equations; lia.
Qed.

Lemma copyRecord_roundtrip_witness :
  ∃ buf',
    copyRecord tree6 (replicate 7 0)
      (Node (Leaf None) (Leaf None) 0x1234567, Node (Leaf None) (Leaf None) 0xABCDEF0)
      newDataWriter = Some (buf', newDataWriter, None) ∧
    unpackRecord (recordSize tree6) buf' = Some (0x1234567, 0xABCDEF0) ∧
    (recordSize tree6 = 28 →
     ∃ b3, buf' !! 3%nat = Some b3 ∧ 0 ≤ b3 < 256 ∧
           b3 ≫ 4 = 0x1234567 ≫ 24 ∧ b3 .&. 0x0F = 0xABCDEF0 ≫ 24).
Proof.
  apply (copyRecord_roundtrip tree6 (replicate 7 0)
           (Node (Leaf None) (Leaf None) 0x1234567)
           (Node (Leaf None) (Leaf None) 0xABCDEF0)
           newDataWriter newDataWriter newDataWriter).
  all: try reflexivity.
  - right; left; reflexivity.
  - change (recordSize tree6) with 28. lia.
  - change (recordSize tree6) with 28. lia.
Defined.

(** ** Record values *)

(** The record value that recordValueForNode computes is the one of the
    specification; the data writer of this model returns no error. *)
Lemma recordValueForNode_spec (t : Tree) (n : node) (dw : dataWriter) :
  recordValueForNode t n dw =
    let '(dw', x) := recordValue_spec (nodeCount t) n dw in (dw', x, None).
Proof.
  destruct n as [[v|]|c0 c1 num]; try reflexivity.
  unfold recordValueForNode, recordValue_spec, dataWriter_write. simpl.
  destruct (dw_pool dw !! encode v); reflexivity.
Qed.

(** ** The trie *)

Lemma node_get_insert_bits (k : nat) (n : node) (ip : list byte) (depth : Z)
    (v : DataType) :
  node_get (insert_bits k n ip depth v) ip depth = (depth + Z.of_nat k, Some v).
Proof.
  revert n depth. induction k as [|k IH]; intros n depth.
  - simpl. f_equal. lia.
  - cbn [insert_bits]. destruct (materialize n) as [[c0 c1] num].
    destruct (bitAt ip depth) eqn:Hbit; cbn [node_get]; rewrite Hbit, IH;
      f_equal; lia.
Qed.

Lemma leading_ones_ge (fuel : nat) (n : Z) (v : byte) :
  n ≤ (net.leading_ones fuel n v).1.
Proof.
  revert n v. induction fuel as [|fuel IH]; intros n v; simpl; [lia|].
  case_decide; simpl; [|lia]. etrans; [|apply IH]. lia.
Qed.

(** The inner loop of [simpleMaskLength] has ended after 8 rounds: the bit
    it tests is clear in the byte that is left. *)
Lemma leading_ones_exits (v : byte) (n : Z) :
  0 ≤ v < 256 → Z.land (net.leading_ones 8 n v).2 0x80 = 0.
Proof.
  intros Hv.
  assert (forallb (λ k : nat,
            bool_decide (Z.land (net.leading_ones 8 0 (Z.of_nat k)).2 0x80 = 0))
          (seq 0 256) = true) as Henum by (vm_compute; reflexivity).
  rewrite forallb_forall in Henum.
  specialize (Henum (Z.to_nat v)). rewrite Z2Nat.id in Henum by lia.
  apply bool_decide_eq_true in Henum; [|apply in_seq; lia].
  assert (∀ fuel m m' x, (net.leading_ones fuel m x).2 = (net.leading_ones fuel m' x).2)
    as Hindep.
  { induction fuel as [|fuel IH]; intros m m' x; [done|].
    cbn [net.leading_ones]. case_decide; [apply IH|done]. }
  by rewrite (Hindep 8%nat n 0 v).
Qed.

Lemma simpleMaskLength_from_ge (n : Z) (mask : list byte) :
  0 ≤ n → -1 ≤ net.simpleMaskLength_from n mask.
Proof.
  revert n. induction mask as [|v rest IH]; intros n Hn;
    cbn [net.simpleMaskLength_from]; [lia|].
  case_decide; [apply IH; lia|].
  pose proof (leading_ones_ge 8 n v) as Hge.
  destruct (net.leading_ones 8 n v) as [n' v']. simpl in Hge.
  repeat case_match; lia.
Qed.

(** The prefix length that Insert reads off a mask is never negative. *)
Lemma Mask_Size_nonneg (m : list byte) : 0 ≤ (net.IPMask_Size m).1.
Proof.
  unfold net.IPMask_Size, net.simpleMaskLength.
  pose proof (simpleMaskLength_from_ge 0 m). case_decide; simpl; lia.
Qed.

(** ** Insert *)

(** What Insert does with a prefix length other than 0. *)
Lemma Insert_ok (t : Tree) (network : net.IPNet) (v : DataType) :
  (net.IPMask_Size (net.Mask network)).1 ≠ 0 →
  Insert t network v =
    (let prefixLen := (net.IPMask_Size (net.Mask network)).1 in
     let ip := net.IP network in
     if bool_decide (treeDepth t = 128) && bool_decide (len ip = 4)
     then set_root (set_nodeCount t 0)
            (node_insert (root t) (ipV4ToV6 ip) (prefixLen + 96) 0 v)
     else set_root (set_nodeCount t 0) (node_insert (root t) ip prefixLen 0 v),
     None).
Proof.
  intros Hlen. unfold Insert. rewrite decide_False by done.
  cbn [treeDepth set_nodeCount root].
  by destruct (bool_decide (treeDepth t = 128) && bool_decide (len (net.IP network) = 4)).
Qed.

(** C4 (as amended).  For every network with prefix length 0 and every
    value, Insert on any tree returns the error of an insertion at the
    root; the trie and every field of the tree are left as they were except
    the node count, which is reset to 0. *)
Theorem Insert_prefix_zero (t : Tree) (network : net.IPNet) (v : DataType) :
  (net.IPMask_Size (net.Mask network)).1 = 0 →
  ∃ t', Insert t network v = (t', Some ErrInsertRoot) ∧
        root t' = root t ∧
        buildEpoch t' = buildEpoch t ∧ databaseType t' = databaseType t ∧
        description t' = description t ∧ ipVersion t' = ipVersion t ∧
        languages t' = languages t ∧ recordSize t' = recordSize t ∧
        treeDepth t' = treeDepth t ∧
        nodeCount t' = 0.
Proof.
  intros Hlen. exists (set_nodeCount t 0). unfold Insert.
  rewrite decide_True by done. done.
Qed.

Lemma Insert_prefix_zero_witness :
  ∃ t', Insert tree6_two net_any4 (String "B") = (t', Some ErrInsertRoot) ∧
        root t' = root tree6_two ∧
        buildEpoch t' = buildEpoch tree6_two ∧
        databaseType t' = databaseType tree6_two ∧
        description t' = description tree6_two ∧
        ipVersion t' = ipVersion tree6_two ∧
        languages t' = languages tree6_two ∧
        recordSize t' = recordSize tree6_two ∧
        treeDepth t' = treeDepth tree6_two ∧
        nodeCount t' = 0.
Proof. apply (Insert_prefix_zero tree6_two net_any4 (String "B")). reflexivity. Defined.

(** C4 as stated fails: a finalized tree of two nodes loses its node count
    when a network of prefix length 0 is rejected. *)
Lemma Insert_prefix_zero_resets_nodeCount :
  (net.IPMask_Size (net.Mask net_any4)).1 = 0 ∧
  nodeCount tree6_two = 2 ∧
  (Insert tree6_two net_any4 (String "B")).2 = Some ErrInsertRoot ∧
  nodeCount (Insert tree6_two net_any4 (String "B")).1 = 0 ∧
  (Insert tree6_two net_any4 (String "B")).1 ≠ tree6_two.
Proof.
  repeat split; try reflexivity.
  intros Heq. apply (f_equal nodeCount) in Heq. vm_compute in Heq. discriminate.
Qed.

(** C5 (as amended).  For every IPv4 tree and every network with a 16-byte
    address: with prefix length 0 Insert returns the error of an insertion
    at the root and leaves the trie as it was; with any other prefix length
    it returns no error, resets the node count and inserts the network with
    its address and prefix length as given, so that looking the address up
    in the trie finds the value at that depth. *)
Theorem Insert_v6_address_in_v4_tree (t : Tree) (network : net.IPNet)
    (v : DataType) :
  treeDepth t = 32 →
  len (net.IP network) = 16 →
  let prefixLen := (net.IPMask_Size (net.Mask network)).1 in
  let t' := (Insert t network v).1 in
  (prefixLen = 0 →
   (Insert t network v).2 = Some ErrInsertRoot ∧ root t' = root t) ∧
  (prefixLen ≠ 0 →
   (Insert t network v).2 = None ∧
   nodeCount t' = 0 ∧
   root t' = node_insert (root t) (net.IP network) prefixLen 0 v ∧
   node_get (root t') (net.IP network) 0 = (prefixLen, Some v)).
Proof.
  intros Hdepth Hip prefixLen t'. subst t'. split; intros Hlen.
  - unfold Insert. fold prefixLen. by rewrite decide_True.
  - rewrite Insert_ok by done. fold prefixLen.
    rewrite Hdepth, bool_decide_false by done.
    cbn [andb fst snd set_root root nodeCount set_nodeCount].
    repeat split. unfold node_insert. rewrite node_get_insert_bits.
    f_equal. pose proof (Mask_Size_nonneg (net.Mask network)). lia.
Qed.

Lemma Insert_v6_address_in_v4_tree_witness :
  (Insert tree4 net6_low (String "A")).2 = None ∧
  nodeCount (Insert tree4 net6_low (String "A")).1 = 0 ∧
  root (Insert tree4 net6_low (String "A")).1
    = node_insert (root tree4) (net.IP net6_low) 1 0 (String "A") ∧
  node_get (root (Insert tree4 net6_low (String "A")).1) (net.IP net6_low) 0
    = (1, Some (String "A")).
Proof.
  apply (Insert_v6_address_in_v4_tree tree4 net6_low (String "A"));
    [reflexivity|reflexivity|]. vm_compute. discriminate.
Defined.

(** C5 as stated fails: an IPv4 tree takes the network ::/1 of a 16-byte
    address without an error and its trie changes. *)
Lemma Insert_v6_address_in_v4_tree_accepted :
  treeDepth tree4 = 32 ∧
  len (net.IP net6_low) = 16 ∧
  (Insert tree4 net6_low (String "A")).2 = None ∧
  root (Insert tree4 net6_low (String "A")).1 ≠ root tree4.
Proof. repeat split. vm_compute. discriminate. Qed.

(** ** IPv4 addresses in a tree of depth 128 *)

(** Insert puts 12 zero bytes in front of a 4-byte address and adds 96 to
    the prefix length. *)
Lemma Insert_v4_in_v6 (t : Tree) (network : net.IPNet) (v : DataType) :
  treeDepth t = 128 →
  len (net.IP network) = 4 →
  (net.IPMask_Size (net.Mask network)).1 ≠ 0 →
  Insert t network v =
    (set_root (set_nodeCount t 0)
       (node_insert (root t) (replicate 12 0 ++ net.IP network)
          ((net.IPMask_Size (net.Mask network)).1 + 96) 0 v), None).
Proof.
  intros Hdepth Hip Hlen. rewrite Insert_ok by done. cbv zeta.
  rewrite (bool_decide_true (treeDepth t = 128)) by done.
  rewrite (bool_decide_true (len (net.IP network) = 4)) by done.
  reflexivity.
Qed.

(** Get looks a 4-byte address up behind 12 zero bytes and takes 96 off a
    matched prefix length of 96 or more. *)
Lemma Get_v4_in_v6 (t : Tree) (ip : list byte) :
  treeDepth t = 128 →
  len ip = 4 →
  Get t ip =
    (let '(matched, value) := node_get (root t) (replicate 12 0 ++ ip) 0 in
     let prefixLen := if decide (96 ≤ matched) then matched - 96 else matched in
     ({| net.IP := net.IP_Mask ip (net.CIDRMask prefixLen 128);
         net.Mask := net.CIDRMask prefixLen 128 |}, value)).
Proof.
  intros Hdepth Hip. unfold Get, net.IP_To4.
  rewrite Hdepth, !decide_True by done.
  change (ipV4ToV6 ip) with (replicate 12 0 ++ ip).
  destruct (node_get _ _ _) as [matched value].
  rewrite (bool_decide_true (len ip = 4)), andb_true_r by done.
  case_bool_decide; case_decide; try lia; done.
Qed.

(** The masks of 128 bits, by enumeration of the 129 prefix lengths. *)
Lemma CIDRMask_128_enum :
  forallb (λ n : nat,
    let mask := net.CIDRMask (Z.of_nat n) 128 in
    bool_decide (net.IPMask_Size mask = (Z.of_nat n, 128))
    && bool_decide (len mask = 16)
    && (bool_decide (96 ≤ Z.of_nat n) || negb (net.allFF (take 12 mask))))
  (seq 0 129) = true.
Proof. vm_compute. reflexivity. Qed.

Lemma CIDRMask_128 (ones : Z) :
  0 ≤ ones ≤ 128 →
  net.IPMask_Size (net.CIDRMask ones 128) = (ones, 128) ∧
  len (net.CIDRMask ones 128) = 16 ∧
  (ones < 96 → net.allFF (take 12 (net.CIDRMask ones 128)) = false).
Proof.
  intros Hones. pose proof CIDRMask_128_enum as Henum.
  rewrite forallb_forall in Henum.
  specialize (Henum (Z.to_nat ones)). rewrite Z2Nat.id in Henum by lia.
  cbv zeta in Henum.
  rewrite !andb_true_iff, orb_true_iff, negb_true_iff in Henum.
  rewrite !bool_decide_eq_true in Henum.
  destruct Henum as [[Hsize Hlen] Hff]; [apply in_seq; lia|].
  split_and!; [done..|]. intros Hlt. destruct Hff; [lia|done].
Qed.

(** With a matched prefix length between 96 and 128, the network that Get
    returns for a 4-byte address has the mask of [matched - 96] ones in
    128 bits, and no address: [ip.Mask(mask)] is nil because the address has
    4 bytes and the mask 16. *)
Lemma Get_v4_in_v6_nil_address (t : Tree) (ip : list byte) :
  treeDepth t = 128 →
  len ip = 4 →
  let matched := (node_get (root t) (replicate 12 0 ++ ip) 0).1 in
  96 ≤ matched ≤ 128 →
  (Get t ip).1 = {| net.IP := []; net.Mask := net.CIDRMask (matched - 96) 128 |} ∧
  net.IPMask_Size (net.CIDRMask (matched - 96) 128) = (matched - 96, 128).
Proof.
  intros Hdepth Hip matched Hm. rewrite Get_v4_in_v6 by done.
  subst matched. destruct (node_get _ _ _) as [matched value]. simpl in Hm.
  rewrite decide_True by lia.
  destruct (CIDRMask_128 (matched - 96)) as (Hsize & Hlen & Hff); [lia|].
  split; [|done]. cbn [fst]. f_equal.
  unfold net.IP_Mask. rewrite Hff by lia. rewrite andb_false_r.
  rewrite (bool_decide_false (len (net.CIDRMask (matched - 96) 128) = 4)) by lia.
  cbn [andb]. rewrite decide_True by lia. done.
Qed.

(** C6.  The tree of depth 128 into which 1.1.1.1/32 was inserted with a
    4-byte address: Insert has put 12 zero bytes in front of the address
    and added 96 to the prefix length, Get looks 1.1.1.1 up behind 12 zero
    bytes and matches at depth 128, and the network it returns has a mask
    of 32 ones in 128 bits and the nil address, where the claim has the
    address 1.1.1.1 masked to 32 bits. *)
Theorem Get_v4_address_in_v6_tree :
  Insert tree6 net_1_1_1_1 (String "A")
    = (set_root tree6
         (node_insert (root tree6) (replicate 12 0 ++ [1; 1; 1; 1]) (32 + 96) 0
            (String "A")), None) ∧
  node_get (root tree6_one) (replicate 12 0 ++ [1; 1; 1; 1]) 0
    = (128, Some (String "A")) ∧
  Get tree6_one [1; 1; 1; 1]
    = ({| net.IP := []; net.Mask := [255; 255; 255; 255] ++ replicate 12 0 |},
       Some (String "A")) ∧
  net.IPMask_Size (net.Mask (Get tree6_one [1; 1; 1; 1]).1) = (32, 128).
Proof. repeat split; vm_compute; reflexivity. Qed.

(** ** New *)

(** The tree that New returns: the defaults for the options left at their
    zero value, an empty leaf for its root and no node count. *)
Lemma New_Ok (now : Z) (opts : Options) (t : Tree) :
  New now opts = Ok t →
  root t = Leaf None ∧ nodeCount t = 0 ∧
  ipVersion t = (if decide (IPVersion opts ≠ 0) then IPVersion opts else 6) ∧
  recordSize t = (if decide (RecordSize opts ≠ 0) then RecordSize opts else 28) ∧
  (ipVersion t = 6 ∧ treeDepth t = 128 ∨ ipVersion t = 4 ∧ treeDepth t = 32).
Proof.
  unfold New. intros Hnew.
  repeat case_decide; simplify_eq/=; split_and!; auto.
Qed.

(** The data writer of this model never fails, so a record value is always
    computed. *)
Lemma recordValueForNode_no_error (t : Tree) (n : node) (dw : dataWriter) :
  ∃ dw' x, recordValueForNode t n dw = (dw', x, None).
Proof.
  destruct n as [[v|]|c0 c1 num]; [|by eexists _, _..].
  unfold recordValueForNode, dataWriter_write. simpl.
  destruct (dw_pool dw !! encode v); by eexists _, _.
Qed.

(** copyRecord reports a record size it does not know, after it has
    computed the two record values. *)
Lemma copyRecord_unsupported (t : Tree) (buf : list byte)
    (children : node * node) (dw : dataWriter) :
  recordSize t ≠ 24 ∧ recordSize t ≠ 28 ∧ recordSize t ≠ 32 →
  ∃ dw', copyRecord t buf children dw
         = Some (buf, dw', Some (ErrUnsupportedRecordSize (recordSize t))).
Proof.
  intros (H24 & H28 & H32). unfold copyRecord.
  destruct (recordValueForNode_no_error t children.1 dw) as (dw1 & l & ->).
  destruct (recordValueForNode_no_error t children.2 dw1) as (dw2 & r & ->).
  rewrite !decide_False by done. by eexists.
Qed.

(** C9 (as amended).  With [ipVersion] the ip-version of the options, or 6
    when that is 0: construction fails with the unsupported-IP-version
    error when [ipVersion] is neither 4 nor 6, and succeeds otherwise,
    whatever the record size; the tree has the record size of the options,
    or 28 when that is 0.  A record size other than 24, 28 and 32 is
    reported by copyRecord, with the unsupported-record-size error, when a
    record is packed: for such a record size from 1 to 65535, WriteTo of a
    finalized tree that is not empty returns that error, with the count 0
    and nothing written. *)
Theorem New_validation (now : Z) (opts : Options) :
  let ipVersion := if decide (IPVersion opts = 0) then 6 else IPVersion opts in
  let recordSize0 := if decide (RecordSize opts = 0) then 28 else RecordSize opts in
  (ipVersion ≠ 4 ∧ ipVersion ≠ 6 →
   New now opts = Err (ErrUnsupportedIPVersion ipVersion)) ∧
  (ipVersion = 4 ∨ ipVersion = 6 →
   ∃ t, New now opts = Ok t ∧ recordSize t = recordSize0 ∧
        treeDepth t = (if decide (ipVersion = 4) then 32 else 128)) ∧
  (∀ (t : Tree) (buf : list byte) (children : node * node) (dw : dataWriter),
     recordSize t ≠ 24 ∧ recordSize t ≠ 28 ∧ recordSize t ≠ 32 →
     ∃ dw', copyRecord t buf children dw
            = Some (buf, dw', Some (ErrUnsupportedRecordSize (recordSize t)))) ∧
  (∀ (t : Tree) (w : Sink),
     recordSize t ≠ 24 ∧ recordSize t ≠ 28 ∧ recordSize t ≠ 32 →
     0 < recordSize t < 2 ^ 16 → nodeCount t ≠ 0 → isLeaf (root t) = false →
     WriteTo t w = Some (w, 0, Some (ErrUnsupportedRecordSize (recordSize t)))).
Proof.
  intros ipVersion recordSize0.
  split_and!.
  - unfold New. subst ipVersion. intros [H4 H6].
    repeat case_decide; simplify_eq/=; done.
  - unfold New. subst ipVersion recordSize0. intros H46.
    repeat case_decide; simplify_eq/=; try lia; by eauto.
  - apply copyRecord_unsupported.
  - intros t w Hsz Hneg Hcount Hleaf. unfold WriteTo.
    rewrite decide_False by done. unfold make_bytes, maxAlloc.
    rewrite wrap_int_small by lia.
    rewrite decide_False by (Z.quot_rem_to_equations; lia). cbn [mbind option_bind].
    destruct (root t) as [|c0 c1 num]; [done|]. cbn [writeNode].
    destruct (copyRecord_unsupported t
                (replicate (Z.to_nat ((2 * recordSize t) `quot` 8)) 0)
                (c0, c1) newDataWriter Hsz) as (dw' & ->).
    reflexivity.
Qed.

Lemma New_validation_witness :
  (∃ t, New 0 (someOptions 6 16) = Ok t ∧ recordSize t = 16 ∧ treeDepth t = 128) ∧
  WriteTo tree6_16_one sink_ten
    = Some (sink_ten, 0, Some (ErrUnsupportedRecordSize 16)).
Proof.
  destruct (New_validation 0 (someOptions 6 16)) as (_ & Hok & _ & Hwrite).
  split; [apply Hok; right; reflexivity|].
  apply (Hwrite tree6_16_one sink_ten).
  - repeat split; discriminate.
  - split; reflexivity.
  - discriminate.
  - reflexivity.
Defined.

(** C9 as stated fails: 16 is no record size of the format and New builds
    the tree. *)
Lemma New_accepts_record_size_16 :
  RecordSize (someOptions 6 16) = 16 ∧
  ∃ t, New 0 (someOptions 6 16) = Ok t ∧ recordSize t = 16.
Proof. split; [reflexivity|]. eexists. split; reflexivity. Qed.

(** ** Trees that are not finalized *)

Lemma Insert_nodeCount (t : Tree) (network : net.IPNet) (v : DataType) :
  nodeCount (Insert t network v).1 = 0.
Proof.
  unfold Insert. case_decide; [done|].
  by destruct (bool_decide _ && bool_decide _).
Qed.

Lemma unfinalized_nodeCount (t : Tree) : unfinalized t → nodeCount t = 0.
Proof.
  destruct 1 as [now opts t Hnew|t network v].
  - by apply New_Ok in Hnew as (_ & ? & _).
  - apply Insert_nodeCount.
Qed.

(** C7.  For every tree that is not finalized (it comes from New, or an
    Insert was the last call to change it) WriteTo returns the
    not-finalized error and the count 0, and the sink is as it was. *)
Theorem WriteTo_unfinalized (t : Tree) (w : Sink) :
  unfinalized t → WriteTo t w = Some (w, 0, Some ErrNotFinalized).
Proof.
  intros Hnodes%unfinalized_nodeCount. unfold WriteTo.
  by rewrite decide_True.
Qed.

Lemma WriteTo_unfinalized_witness :
  WriteTo (Insert tree6_two net6_low (String "B")).1 sink_ten
    = Some (sink_ten, 0, Some ErrNotFinalized).
Proof.
  apply (WriteTo_unfinalized (Insert tree6_two net6_low (String "B")).1 sink_ten).
  apply unfinalized_Insert.
Defined.

Lemma Insert_rejected (t : Tree) (network : net.IPNet) (v : DataType) (e : error) :
  (Insert t network v).2 = Some e →
  Insert t network v = (set_nodeCount t 0, Some ErrInsertRoot).
Proof.
  unfold Insert. case_decide; [done|].
  by destruct (bool_decide _ && bool_decide _).
Qed.

Lemma never_inserted_empty (t : Tree) :
  never_inserted t → root t = Leaf None ∧ nodeCount t = 0.
Proof.
  induction 1 as [now opts t Hnew|t network v e _ [IHroot IHcount] Herr
                  |t _ [IHroot IHcount]].
  - by apply New_Ok in Hnew as (? & ? & _).
  - by rewrite (Insert_rejected _ _ _ _ Herr).
  - unfold Finalize. by rewrite IHroot.
Qed.

(** C10.  For every tree into which no network has been inserted the root
    is a leaf and Finalize sets the node count to 0; WriteTo then answers
    the finalized tree as it answers the tree before Finalize, with the
    not-finalized error, the count 0 and nothing written. *)
Theorem Finalize_empty_tree (t : Tree) (w : Sink) :
  never_inserted t →
  isLeaf (root t) = true ∧
  nodeCount (Finalize t) = 0 ∧
  WriteTo (Finalize t) w = Some (w, 0, Some ErrNotFinalized) ∧
  WriteTo (Finalize t) w = WriteTo t w.
Proof.
  intros Hnever. pose proof (never_inserted_empty t Hnever) as [Hroot Hcount].
  pose proof (never_inserted_empty _ (never_inserted_Finalize t Hnever))
    as [_ Hfin].
  split_and!; [by rewrite Hroot|done|..].
  - unfold WriteTo. by rewrite decide_True.
  - unfold WriteTo. by rewrite !decide_True.
Qed.

Lemma Finalize_empty_tree_witness :
  isLeaf (root tree6) = true ∧
  nodeCount (Finalize tree6) = 0 ∧
  WriteTo (Finalize tree6) sink_open = Some (sink_open, 0, Some ErrNotFinalized) ∧
  WriteTo (Finalize tree6) sink_open = WriteTo tree6 sink_open.
Proof.
  apply (Finalize_empty_tree tree6 sink_open).
  apply (never_inserted_New 0 (someOptions 6 28)). reflexivity.
Defined.

(** ** The sink and the buffered writer *)

Lemma len_app {A} (l k : list A) : len (l ++ k) = len l + len k.
Proof. unfold len. rewrite length_app. lia. Qed.

Lemma len_nil_inv {A} (l : list A) : len l = 0 → l = [].
Proof. unfold len. destruct l; simpl; [done|lia]. Qed.

Lemma drop_len {A} (l : list A) : drop (Z.to_nat (len l)) l = [].
Proof. unfold len. by rewrite Nat2Z.id, drop_all. Qed.

Lemma Sink_Write_ok (w w' : Sink) (p : list byte) (n : Z) :
  Sink_Write w p = (w', n, None) →
  accepted w' = accepted w ++ p ∧ n = len p.
Proof.
  unfold Sink_Write. intros Hw.
  destruct (room w); [case_decide|]; by simplify_eq/=.
Qed.

Lemma Sink_Write_open (w : Sink) (p : list byte) :
  room w = None →
  Sink_Write w p = ({| accepted := accepted w ++ p; room := None |}, len p, None).
Proof. unfold Sink_Write. by intros ->. Qed.

Lemma bufio_Flush_ok (b b' : bufio.Writer) :
  bufio.Flush b = (b', None) →
  accepted (bufio.b_wr b') = stream b ∧ bufio.b_buf b' = [] ∧ bufio.b_err b' = None.
Proof.
  unfold bufio.Flush, stream, bufio.Buffered. intros Hf.
  destruct (bufio.b_err b) eqn:Herr; [done|].
  case_decide as Hn.
  - simplify_eq. apply len_nil_inv in Hn. rewrite Hn, app_nil_r. done.
  - destruct (Sink_Write (bufio.b_wr b) (bufio.b_buf b)) as [[wr n] err] eqn:Hw.
    destruct err as [e|].
    + rewrite andb_false_r in Hf. done.
    + apply Sink_Write_ok in Hw as [Hacc ->].
      rewrite bool_decide_false in Hf by lia. by simplify_eq/=.
Qed.

Lemma bufio_Flush_err (b b' : bufio.Writer) (e : option error) :
  bufio.Flush b = (b', e) → bufio.b_err b' = e.
Proof.
  unfold bufio.Flush. destruct (bufio.b_err b) eqn:Herr; [by intros; simplify_eq|].
  case_decide; [by intros; simplify_eq|].
  destruct (Sink_Write _ _) as [[wr n] err].
  destruct (if _ && _ then _ else _); by intros; simplify_eq/=.
Qed.

Lemma bufio_Flush_wf (b : bufio.Writer) :
  bufio_wf b → bufio_wf (bufio.Flush b).1.
Proof.
  unfold bufio.Flush, bufio_wf. intros Hwf.
  destruct (bufio.b_err b); [done|]. case_decide; [done|].
  destruct (Sink_Write _ _) as [[wr n] err].
  destruct (if _ && _ then _ else _); simpl; [|done].
  unfold len in *. rewrite length_drop. lia.
Qed.

Lemma bufio_Write_loop_ok (fuel : nat) (b b' : bufio.Writer) (p p' : list byte)
    (nn nn' : Z) :
  bufio_wf b →
  bufio.Write_loop fuel b p nn = (b', p', nn') →
  bufio.b_err b' = None →
  bufio_wf b' ∧ bufio.b_err b = None ∧
  stream b' ++ p' = stream b ++ p ∧ nn' + len p' = nn + len p.
Proof.
  revert b p nn. induction fuel as [|fuel IH]; intros b p nn Hwf Hloop Herr.
  { by simplify_eq/=. }
  cbn [bufio.Write_loop] in Hloop.
  destruct (bool_decide (len p > bufio.Available b) && bool_decide (bufio.b_err b = None))
    eqn:Hcond; [|by simplify_eq/=].
  apply andb_prop in Hcond as [Hlen%bool_decide_eq_true Hb%bool_decide_eq_true].
  case_decide as Hbuf.
  - destruct (Sink_Write (bufio.b_wr b) p) as [[wr n] err] eqn:Hw.
    apply IH in Hloop as (Hwf' & Herr1 & Hs & Hn); [|done..].
    simpl in Herr1. subst err. apply Sink_Write_ok in Hw as [Hacc ->].
    split_and!; [done..| |].
    + rewrite Hs. unfold stream. simpl. rewrite Hacc.
      unfold bufio.Buffered in Hbuf. apply len_nil_inv in Hbuf. rewrite Hbuf.
      by rewrite drop_len, !app_nil_r.
    + rewrite Hn, drop_len. unfold len. simpl. lia.
  - assert (len (bufio.b_buf b) ≤ 4096) as Hwf0 by done.
    unfold bufio.Available, bufio.defaultBufSize in Hloop, Hlen.
    rewrite Z.min_l in Hloop by lia.
    set (k := Z.to_nat (4096 - len (bufio.b_buf b))) in *.
    set (b1 := {| bufio.b_err := bufio.b_err b;
                  bufio.b_buf := bufio.b_buf b ++ take k p;
                  bufio.b_wr := bufio.b_wr b |}) in *.
    assert (length (take k p) = k) as Htake.
    { rewrite length_take. unfold len in *. lia. }
    assert (bufio_wf b1) as Hwf1.
    { unfold bufio_wf, b1, bufio.defaultBufSize. simpl. rewrite len_app.
      unfold len in *. lia. }
    pose proof (bufio_Flush_wf b1 Hwf1) as Hwf2.
    destruct (bufio.Flush b1) as [b2 e2] eqn:Hflush. simpl in Hwf2.
    apply IH in Hloop as (Hwf' & Herr2 & Hs & Hn); [|exact Hwf2|exact Herr].
    assert (e2 = None) as -> by (by apply bufio_Flush_err in Hflush as <-).
    apply bufio_Flush_ok in Hflush as (Hacc & Hbuf2 & _).
    split_and!; [done..| |].
    + rewrite Hs. unfold stream at 1. rewrite Hacc, Hbuf2, app_nil_r.
      unfold stream, b1. simpl. rewrite <-!(assoc_L (++)). f_equal. f_equal.
      apply take_drop.
    + rewrite Hn. unfold len in *. rewrite length_drop. lia.
Qed.

(** After a direct write the loop is over. *)
Lemma bufio_Write_loop_exits_empty (fuel : nat) (b b' : bufio.Writer)
    (p p' : list byte) (nn nn' : Z) :
  bufio.Buffered b = 0 →
  bufio.Write_loop (S fuel) b p nn = (b', p', nn') →
  bufio.b_err b' = None →
  len p' ≤ bufio.Available b'.
Proof.
  intros Hbuf Hloop Herr. cbn [bufio.Write_loop] in Hloop.
  destruct (bool_decide (len p > bufio.Available b) && bool_decide (bufio.b_err b = None))
    eqn:Hcond.
  - rewrite decide_True in Hloop by done.
    destruct (Sink_Write (bufio.b_wr b) p) as [[wr n] err] eqn:Hw.
    assert (bufio.Write_loop fuel
              {| bufio.b_err := err; bufio.b_buf := bufio.b_buf b;
                 bufio.b_wr := wr |}
              (drop (Z.to_nat n) p) (nn + n)
            = ({| bufio.b_err := err; bufio.b_buf := bufio.b_buf b; bufio.b_wr := wr |},
               drop (Z.to_nat n) p, nn + n)) as Hstop.
    { destruct fuel as [|fuel]; [done|]. cbn [bufio.Write_loop].
      destruct err as [e|]; cbn [bufio.b_err].
      - by rewrite andb_false_r.
      - apply Sink_Write_ok in Hw as [_ ->]. rewrite drop_len.
        rewrite bool_decide_false; [done|].
        unfold bufio.Available, bufio.Buffered, bufio.defaultBufSize in *.
        simpl. unfold len at 1. simpl. lia. }
    rewrite Hstop in Hloop. simplify_eq/=.
    apply Sink_Write_ok in Hw as [_ ->]. rewrite drop_len.
    unfold bufio.Available, bufio.Buffered, bufio.defaultBufSize in *.
    simpl. unfold len at 1. simpl. lia.
  - simplify_eq. rewrite Herr in Hcond.
    rewrite (bool_decide_true (None = None)), andb_true_r in Hcond by done.
    apply bool_decide_eq_false in Hcond. lia.
Qed.

(** Two rounds end the loop of Write. *)
Lemma bufio_Write_loop_exits (fuel : nat) (b b' : bufio.Writer)
    (p p' : list byte) (nn nn' : Z) :
  bufio.Write_loop (S (S fuel)) b p nn = (b', p', nn') →
  bufio.b_err b' = None →
  len p' ≤ bufio.Available b'.
Proof.
  intros Hloop Herr.
  destruct (decide (bufio.Buffered b = 0)) as [Hbuf|Hbuf].
  { by eapply bufio_Write_loop_exits_empty. }
  remember (S fuel) as fuel1. cbn [bufio.Write_loop] in Hloop.
  destruct (bool_decide (len p > bufio.Available b) && bool_decide (bufio.b_err b = None))
    eqn:Hcond.
  - rewrite decide_False in Hloop by done.
    destruct (bufio.Flush _) as [b2 e2] eqn:Hflush. subst fuel1.
    destruct e2 as [e|].
    + apply bufio_Flush_err in Hflush.
      cbn [bufio.Write_loop] in Hloop. rewrite Hflush, andb_false_r in Hloop.
      by simplify_eq.
    + apply bufio_Flush_ok in Hflush as (_ & Hbuf2 & _).
      eapply bufio_Write_loop_exits_empty; [|done..].
      unfold bufio.Buffered. by rewrite Hbuf2.
  - simplify_eq. rewrite Herr in Hcond.
    rewrite (bool_decide_true (None = None)), andb_true_r in Hcond by done.
    apply bool_decide_eq_false in Hcond. lia.
Qed.

(** A loop whose condition is false returns at once. *)
Lemma bufio_Write_loop_done (fuel : nat) (b : bufio.Writer) (p : list byte)
    (nn : Z) :
  bool_decide (len p > bufio.Available b) && bool_decide (bufio.b_err b = None)
    = false →
  bufio.Write_loop fuel b p nn = (b, p, nn).
Proof. intros Hcond. destruct fuel; [done|]. cbn [bufio.Write_loop]. by rewrite Hcond. Qed.

Lemma bufio_Write_loop_add (n m : nat) (b : bufio.Writer) (p : list byte)
    (nn : Z) :
  bufio.Write_loop (n + m) b p nn =
    let '(b1, p1, nn1) := bufio.Write_loop n b p nn in
    bufio.Write_loop m b1 p1 nn1.
Proof.
  revert b p nn. induction n as [|n IH]; intros b p nn; [done|].
  cbn [bufio.Write_loop Nat.add].
  destruct (_ && _) eqn:Hcond.
  - destruct (decide (bufio.Buffered b = 0)).
    + destruct (Sink_Write _ _) as [[wr k] err]. apply IH.
    + destruct (bufio.Flush _) as [b2 e2]. apply IH.
  - by rewrite bufio_Write_loop_done.
Qed.

(** More than two rounds of fuel change nothing: Write is the loop of
    [bufio.Writer.Write] run to its end. *)
Lemma bufio_Write_loop_fuel (fuel : nat) (b : bufio.Writer) (p : list byte)
    (nn : Z) :
  bufio.Write_loop (2 + fuel) b p nn = bufio.Write_loop 2 b p nn.
Proof.
  rewrite bufio_Write_loop_add.
  destruct (bufio.Write_loop 2 b p nn) as [[b1 p1] nn1] eqn:Hloop.
  apply bufio_Write_loop_done.
  destruct (bufio.b_err b1) as [e|] eqn:Herr.
  - by rewrite andb_false_r.
  - pose proof (bufio_Write_loop_exits _ _ _ _ _ _ _ Hloop Herr).
    rewrite bool_decide_false by lia. done.
Qed.

(** A Write that returns no error has taken all of [p], in order. *)
Lemma bufio_Write_ok (b b' : bufio.Writer) (p : list byte) (n : Z) :
  bufio_wf b →
  bufio.Write b p = (b', n, None) →
  bufio_wf b' ∧ stream b' = stream b ++ p ∧ n = len p.
Proof.
  intros Hwf Hw. unfold bufio.Write in Hw.
  destruct (bufio.Write_loop 2 b p 0) as [[b1 p1] nn1] eqn:Hloop.
  destruct (bufio.b_err b1) eqn:Herr; [done|].
  pose proof (bufio_Write_loop_exits _ _ _ _ _ _ _ Hloop Herr) as Hexit.
  apply bufio_Write_loop_ok in Hloop as (Hwf1 & _ & Hs & Hn); [|done..].
  assert (0 ≤ len p1) by (unfold len; lia).
  rewrite Z.min_r in Hw by done. unfold len in Hw at 1.
  rewrite Nat2Z.id, firstn_all in Hw. simplify_eq.
  unfold bufio_wf, bufio.Available, bufio.defaultBufSize in *.
  split_and!.
  - simpl. rewrite len_app. lia.
  - rewrite <-Hs. unfold stream. simpl. by rewrite (assoc_L (++)).
  - lia.
Qed.

(** Over a sink without a limit the writer never fails. *)
Lemma bufio_Flush_open (b : bufio.Writer) :
  bufio.b_err b = None → room (bufio.b_wr b) = None →
  ∃ b', bufio.Flush b = (b', None) ∧
        bufio.b_err b' = None ∧ room (bufio.b_wr b') = None.
Proof.
  intros Herr Hroom. unfold bufio.Flush. rewrite Herr.
  case_decide; [by eauto|].
  rewrite Sink_Write_open by done.
  rewrite bool_decide_false by (unfold bufio.Buffered; lia). simpl. by eauto.
Qed.

Lemma bufio_Write_loop_open (fuel : nat) (b : bufio.Writer) (p : list byte)
    (nn : Z) :
  bufio.b_err b = None → room (bufio.b_wr b) = None →
  bufio.b_err (bufio.Write_loop fuel b p nn).1.1 = None ∧
  room (bufio.b_wr (bufio.Write_loop fuel b p nn).1.1) = None.
Proof.
  revert b p nn. induction fuel as [|fuel IH]; intros b p nn Herr Hroom; [done|].
  cbn [bufio.Write_loop]. destruct (_ && _); [|done].
  case_decide.
  - rewrite Sink_Write_open by done. by apply IH.
  - destruct (bufio_Flush_open
      {| bufio.b_err := bufio.b_err b;
         bufio.b_buf :=
           bufio.b_buf b ++ take (Z.to_nat (bufio.Available b `min` len p)) p;
         bufio.b_wr := bufio.b_wr b |}) as (b2 & -> & Herr2 & Hroom2); [done..|].
    by apply IH.
Qed.

Lemma bufio_Write_open (b : bufio.Writer) (p : list byte) :
  open_writer b →
  ∃ b', bufio.Write b p = (b', len p, None) ∧ open_writer b'.
Proof.
  intros (Hwf & Herr & Hroom).
  destruct (bufio_Write_loop_open 2 b p 0 Herr Hroom) as [Herr1 Hroom1].
  destruct (bufio.Write b p) as [[b' n] e] eqn:Hw.
  assert (e = None ∧ bufio.b_err b' = None ∧ room (bufio.b_wr b') = None)
    as (-> & ? & ?).
  { unfold bufio.Write in Hw.
    destruct (bufio.Write_loop 2 b p 0) as [[b1 p1] nn1]. simpl in *.
    rewrite Herr1 in Hw. by simplify_eq/=. }
  apply bufio_Write_ok in Hw as (? & _ & ->); [|done].
  by eexists.
Qed.

(** [bytes.Buffer.WriteTo] without an error has written all of the data. *)
Lemma Buffer_WriteTo_ok (data : list byte) (b b' : bufio.Writer) (n : Z) :
  bufio_wf b →
  bytes.Buffer_WriteTo data b = (b', n, None) →
  bufio_wf b' ∧ stream b' = stream b ++ data ∧ n = len data.
Proof.
  intros Hwf. unfold bytes.Buffer_WriteTo. case_decide as Hlen.
  - destruct (bufio.Write b data) as [[b1 m] e] eqn:Hw.
    destruct e; [done|]. case_decide; [done|]. intros ?; simplify_eq.
    by apply bufio_Write_ok in Hw.
  - intros ?; simplify_eq. assert (data = []) as ->.
    { apply len_nil_inv. unfold len in *. lia. }
    by rewrite app_nil_r.
Qed.

Lemma byte_of_int_land' (x : Z) : byte_of_int (x .&. 0xFF) = byte_of_int x.
Proof. by rewrite byte_of_int_land. Qed.

Lemma byte3_range (l r : Z) :
  byte_of_int ((((l ≫ 24) .&. 0x0F) ≪ 4) .|. ((r ≫ 24) .&. 0x0F))
  = (((l ≫ 24) .&. 0x0F) ≪ 4) .|. ((r ≫ 24) .&. 0x0F).
Proof.
  rewrite !nibble_land.
  assert (0 ≤ (l ≫ 24) `mod` 16 < 16) by (apply Z.mod_pos_bound; lia).
  assert (0 ≤ (r ≫ 24) `mod` 16 < 16) by (apply Z.mod_pos_bound; lia).
  rewrite nibbles_lor by done. unfold byte_of_int. apply Z.mod_small. lia.
Qed.

(** ** Records of a size of the format *)

Lemma packRecord_len (size l r : Z) :
  size = 24 ∨ size = 28 ∨ size = 32 →
  len (packRecord size l r) = (2 * size) `quot` 8.
Proof. by intros [->|[->| ->]]. Qed.

Section supported_record_size.

Context (t : Tree).
Hypothesis Hsz : recordSize t = 24 ∨ recordSize t = 28 ∨ recordSize t = 32.

Lemma copyRecord_packRecord (buf : list byte) (c0 c1 : node)
    (dw dw1 dw2 : dataWriter) (l r : Z) :
  len buf = (2 * recordSize t) `quot` 8 →
  recordValueForNode t c0 dw = (dw1, l, None) →
  recordValueForNode t c1 dw1 = (dw2, r, None) →
  copyRecord t buf (c0, c1) dw = Some (packRecord (recordSize t) l r, dw2, None).
Proof.
  intros Hlen Hl Hr. pose proof Hsz as Hsize.
  unfold copyRecord, packRecord. cbn [fst snd]. rewrite Hl, Hr.
  destruct Hsize as [Hsize|[Hsize|Hsize]]; rewrite Hsize in *; unfold len in Hlen.
  - change ((2 * 24) `quot` 8) with 6 in Hlen.
    do 7 (destruct buf as [|? buf]; try (simpl in Hlen; lia)).
    cbn. by rewrite !byte_of_int_land', !Z.shiftr_0_r.
  - change ((2 * 28) `quot` 8) with 7 in Hlen.
    do 8 (destruct buf as [|? buf]; try (simpl in Hlen; lia)).
    cbn. pose proof (byte3_range l r) as Hb3. cbn in Hb3. rewrite Hb3.
    by rewrite !byte_of_int_land', !Z.shiftr_0_r.
  - change ((2 * 32) `quot` 8) with 8 in Hlen.
    do 9 (destruct buf as [|? buf]; try (simpl in Hlen; lia)).
    cbn. by rewrite !byte_of_int_land', !Z.shiftr_0_r.
Qed.

Lemma nodeSection_len (slots : list (node * node)) (dw : dataWriter) :
  len (nodeSection t slots dw).1 = len slots * ((2 * recordSize t) `quot` 8).
Proof.
  revert dw. induction slots as [|[c0 c1] slots IH]; intros dw; [done|].
  cbn [nodeSection].
  destruct (recordValueForNode t c0 dw) as [[dw1 l] e1].
  destruct (recordValueForNode t c1 dw1) as [[dw2 r] e2].
  specialize (IH dw2). destruct (nodeSection t slots dw2) as [bytes dw3].
  cbn [fst] in *. rewrite len_app, IH, packRecord_len by done.
  unfold len. rewrite length_cons. lia.
Qed.

(** Over a sink without a limit writeNode returns no error. *)
Lemma writeNode_open (n : node) (w : bufio.Writer) (dw : dataWriter)
    (buf : list byte) :
  len buf = (2 * recordSize t) `quot` 8 →
  open_writer w →
  ∃ w' dw' buf' k nb,
    writeNode t w n dw buf = Some (w', dw', buf', (k, nb, None)) ∧
    len buf' = (2 * recordSize t) `quot` 8 ∧
    open_writer w'.
Proof.
  revert w dw buf.
  induction n as [v|c0 IH0 c1 IH1 num]; intros w dw buf Hlen Hopen.
  { by eexists _, _, _, _, _. }
  cbn [writeNode].
  destruct (recordValueForNode_no_error t c0 dw) as (dw1 & l & Hl).
  destruct (recordValueForNode_no_error t c1 dw1) as (dw2 & r & Hr).
  rewrite (copyRecord_packRecord buf c0 c1 dw dw1 dw2 l r) by done.
  cbn [mbind option_bind].
  destruct (bufio_Write_open w (packRecord (recordSize t) l r) Hopen)
    as (w1 & -> & Hopen1).
  pose proof (packRecord_len (recordSize t) l r Hsz) as Hplen.
  destruct (IH0 w1 dw2 _ Hplen Hopen1)
    as (w2 & dw3 & buf2 & k0 & nb0 & -> & Hlen2 & Hopen2).
  cbn [mbind option_bind].
  destruct (IH1 w2 dw3 buf2 Hlen2 Hopen2)
    as (w3 & dw4 & buf3 & k1 & nb1 & -> & Hlen3 & Hopen3).
  cbn [mbind option_bind]. by eexists _, _, _, _, _.
Qed.

End supported_record_size.

Lemma nodeSection_app (t : Tree) (s1 s2 : list (node * node)) (dw : dataWriter) :
  nodeSection t (s1 ++ s2) dw =
    let '(b1, dw1) := nodeSection t s1 dw in
    let '(b2, dw2) := nodeSection t s2 dw1 in
    (b1 ++ b2, dw2).
Proof.
  revert dw. induction s1 as [|[c0 c1] s1 IH]; intros dw; simpl.
  - by destruct (nodeSection t s2 dw).
  - destruct (recordValueForNode t c0 dw) as [[dw1 l] e1].
    destruct (recordValueForNode t c1 dw1) as [[dw2 r] e2].
    rewrite IH. destruct (nodeSection t s1 dw2) as [b1 dw3].
    destruct (nodeSection t s2 dw3) as [b2 dw4]. by rewrite (assoc_L (++)).
Qed.

Lemma writeNode_ok (t : Tree) (n : node) (w w' : bufio.Writer)
    (dw dw' : dataWriter) (buf buf' : list byte) (k nb : Z) :
  bufio_wf w →
  len buf = wrap_int (2 * recordSize t) `quot` 8 →
  writeNode t w n dw buf = Some (w', dw', buf', (k, nb, None)) →
  bufio_wf w' ∧
  len buf' = wrap_int (2 * recordSize t) `quot` 8 ∧
  stream w' = stream w ++ (nodeSection t (preorder n) dw).1 ∧
  dw' = (nodeSection t (preorder n) dw).2 ∧
  k = len (preorder n) ∧
  nb = len (nodeSection t (preorder n) dw).1 ∧
  (k ≠ 0 → recordSize t = 24 ∨ recordSize t = 28 ∨ recordSize t = 32).
Proof.
  revert w w' dw dw' buf buf' k nb.
  induction n as [v|c0 IH0 c1 IH1 num]; intros w w' dw dw' buf buf' k nb Hwf Hlen Hw.
  { simpl in *. simplify_eq. by rewrite app_nil_r. }
  cbn [writeNode] in Hw.
  destruct (decide (recordSize t = 24 ∨ recordSize t = 28 ∨ recordSize t = 32))
    as [Hsz|Hsz].
  2: { destruct (copyRecord_unsupported t buf (c0, c1) dw) as (dw1 & Hc); [lia|].
       rewrite Hc in Hw. by simplify_eq/=. }
  rewrite recordBuf_size in Hlen, IH0, IH1 |- * by done.
  destruct (recordValueForNode_no_error t c0 dw) as (dw1 & l & Hl).
  destruct (recordValueForNode_no_error t c1 dw1) as (dw2 & r & Hr).
  rewrite (copyRecord_packRecord t Hsz buf c0 c1 dw dw1 dw2 l r) in Hw by done.
  cbn [mbind option_bind] in Hw.
  destruct (bufio.Write w (packRecord (recordSize t) l r)) as [[w1 nb1] e1] eqn:Hw1.
  destruct e1 as [e1|]; [by simplify_eq/=|].
  apply bufio_Write_ok in Hw1 as (Hwf1 & Hs1 & ->); [|done].
  pose proof (packRecord_len (recordSize t) l r Hsz) as Hplen.
  destruct (writeNode t w1 c0 dw2 _) as [[[[w2 dw3] buf2] [[k0 nb0] e2]]|] eqn:Hw2;
    [|done].
  cbn [mbind option_bind] in Hw.
  destruct e2 as [e2|]; [by simplify_eq/=|].
  apply IH0 in Hw2 as (Hwf2 & Hlen2 & Hs2 & -> & -> & -> & _); [|done..].
  destruct (writeNode t w2 c1 _ buf2) as [[[[w3 dw4] buf3] [[k1 nb2] e3]]|] eqn:Hw3;
    [|done].
  cbn [mbind option_bind] in Hw. simplify_eq.
  apply IH1 in Hw3 as (Hwf3 & Hlen3 & Hs3 & -> & -> & -> & _); [|done..].
  cbn [preorder nodeSection]. rewrite Hl, Hr, nodeSection_app.
  destruct (nodeSection t (preorder c0) dw2) as [b0 dw3]. cbn [fst snd] in *.
  destruct (nodeSection t (preorder c1) dw3) as [b1 dw4]. cbn [fst snd] in *.
  split_and!; [done..| | | | |].
  - rewrite Hs3, Hs2, Hs1. by rewrite <-!(assoc_L (++)).
  - done.
  - unfold len. rewrite length_cons, length_app. lia.
  - rewrite !len_app. lia.
  - done.
Qed.

Lemma make_bytes_Some (n : Z) (buf : list byte) :
  make_bytes n = Some buf → len buf = n.
Proof.
  unfold make_bytes. case_decide; [done|]. intros ?; simplify_eq.
  unfold len. rewrite length_replicate. lia.
Qed.

Lemma bufio_NewWriter_wf (w : Sink) :
  bufio_wf (bufio.NewWriter w) ∧ stream (bufio.NewWriter w) = accepted w.
Proof. split; [done|]. unfold stream. simpl. by rewrite app_nil_r. Qed.

(** ** WriteTo *)

(** What a WriteTo without an error has written and counted. *)
Lemma WriteTo_ok (t : Tree) (w w' : Sink) (n : Z) :
  WriteTo t w = Some (w', n, None) →
  let nodes := (nodeSection t (preorder (root t)) newDataWriter).1 in
  let data := dw_buf (nodeSection t (preorder (root t)) newDataWriter).2 in
  let marker := [0xAB; 0xCD; 0xEF] ++ bytes_of_string "MaxMind.com" in
  let out := nodes ++ replicate 16 0 ++ data ++ marker ++ encode (metadata t) in
  accepted w' = accepted w ++ out ∧
  n = len out ∧
  len marker = 14 ∧
  nodeCount t = len (preorder (root t)) ∧
  len nodes = nodeCount t * ((2 * recordSize t) `quot` 8).
Proof.
  intros Hw nodes data marker out. unfold WriteTo in Hw.
  case_decide as Hcount; [done|].
  destruct (make_bytes _) as [buf|] eqn:Hbuf; [|done].
  apply make_bytes_Some in Hbuf. cbn [mbind option_bind] in Hw.
  destruct (writeNode t _ (root t) newDataWriter buf)
    as [[[[b1 dw1] buf1] [[k nb] e]]|] eqn:Hnodes; [|done].
  cbn [mbind option_bind] in Hw.
  destruct e as [e|]; [by destruct (bufio.Flush b1); simplify_eq|].
  destruct (bufio_NewWriter_wf w) as [Hwf0 Hs0].
  apply writeNode_ok in Hnodes as (Hwf1 & _ & Hs1 & -> & -> & -> & Hsz); [|done..].
  fold nodes in Hs1, Hw |- *. rewrite Hs0 in Hs1.
  case_decide as Hk; [by destruct (bufio.Flush b1); simplify_eq|].
  destruct (bufio.Write b1 dataSectionSeparator) as [[b2 nb2] e] eqn:Hsep.
  destruct e as [e|]; [by destruct (bufio.Flush b2); simplify_eq|].
  apply bufio_Write_ok in Hsep as (Hwf2 & Hs2 & ->); [|done].
  destruct (bytes.Buffer_WriteTo _ b2) as [[b3 nb3] e] eqn:Hdata.
  destruct e as [e|]; [by destruct (bufio.Flush b3); simplify_eq|].
  apply Buffer_WriteTo_ok in Hdata as (Hwf3 & Hs3 & ->); [|done].
  destruct (bufio.Write b3 metadataStartMarker) as [[b4 nb4] e] eqn:Hmark.
  destruct e as [e|]; [by destruct (bufio.Flush b4); simplify_eq|].
  apply bufio_Write_ok in Hmark as (Hwf4 & Hs4 & ->); [|done].
  unfold writeMetadata, DataType_writeTo in Hw.
  destruct (bufio.Write b4 (encode (metadata t))) as [[b5 nb5] e] eqn:Hmeta.
  destruct e as [e|]; [by destruct (bufio.Flush b5); simplify_eq|].
  apply bufio_Write_ok in Hmeta as (Hwf5 & Hs5 & ->); [|done].
  destruct (bufio.Flush b5) as [b6 e] eqn:Hflush.
  destruct e as [e|]; [by simplify_eq|].
  apply bufio_Flush_ok in Hflush as (Hacc & _ & _). simplify_eq.
  split_and!.
  - rewrite Hacc, Hs5, Hs4, Hs3, Hs2, Hs1. subst out data marker.
    by rewrite <-!(assoc_L (++)).
  - subst out data marker.
    change ([171; 205; 239] ++ bytes_of_string "MaxMind.com") with metadataStartMarker.
    change (replicate 16 0) with dataSectionSeparator.
    rewrite !len_app. lia.
  - done.
  - lia.
  - subst nodes. rewrite nodeSection_len by (apply Hsz; lia). lia.
Qed.

(** C8.  A WriteTo that returns no error has appended to the sink, in this
    order, the records of the internal nodes in pre-order, 16 zero bytes,
    the data section accumulated by the data writer, the marker of 14
    bytes (AB CD EF and the text MaxMind.com) and the encoded metadata map;
    the count it returns is the number of these bytes.  The tree has a node
    count equal to the number of its internal nodes, and the node section
    has that many records of [2 * recordSize / 8] bytes. *)
Theorem WriteTo_layout (t : Tree) (w w' : Sink) (n : Z) :
  WriteTo t w = Some (w', n, None) →
  let nodes := (nodeSection t (preorder (root t)) newDataWriter).1 in
  let data := dw_buf (nodeSection t (preorder (root t)) newDataWriter).2 in
  let marker := [0xAB; 0xCD; 0xEF] ++ bytes_of_string "MaxMind.com" in
  let out := nodes ++ replicate 16 0 ++ data ++ marker ++ encode (metadata t) in
  accepted w' = accepted w ++ out ∧
  n = len out ∧
  len marker = 14 ∧
  nodeCount t = len (preorder (root t)) ∧
  len nodes = nodeCount t * ((2 * recordSize t) `quot` 8).
Proof. exact (WriteTo_ok t w w' n). Qed.

Lemma Buffer_WriteTo_open (data : list byte) (b : bufio.Writer) :
  open_writer b →
  ∃ b', bytes.Buffer_WriteTo data b = (b', len data, None) ∧ open_writer b'.
Proof.
  intros Hopen. unfold bytes.Buffer_WriteTo. case_decide.
  - destruct (bufio_Write_open b data Hopen) as (b' & -> & Hopen').
    rewrite decide_False by lia. by eexists.
  - exists b. split; [|done]. do 2 f_equal. unfold len in *. lia.
Qed.

(** A tree whose node count is the number of its internal nodes, with a
    record size of the format, is written without an error to a sink
    without a limit. *)
Lemma WriteTo_open (t : Tree) (w : Sink) :
  recordSize t = 24 ∨ recordSize t = 28 ∨ recordSize t = 32 →
  nodeCount t ≠ 0 →
  nodeCount t = len (preorder (root t)) →
  room w = None →
  ∃ w' n, WriteTo t w = Some (w', n, None).
Proof.
  intros Hsz Hcount Hnodes Hroom. unfold WriteTo.
  rewrite decide_False, recordBuf_size by done.
  destruct (make_bytes ((2 * recordSize t) `quot` 8)) as [buf|] eqn:Hbuf.
  2: { unfold make_bytes, maxAlloc in Hbuf. case_decide as Hrange; [|done].
       destruct Hsz as [Hsz|[Hsz|Hsz]]; rewrite Hsz in Hrange; by destruct Hrange. }
  apply make_bytes_Some in Hbuf. cbn [mbind option_bind].
  assert (open_writer (bufio.NewWriter w)) as Hopen0 by done.
  destruct (writeNode_open t Hsz (root t) (bufio.NewWriter w) newDataWriter buf)
    as (b1 & dw1 & buf1 & k & nb & Hw & _ & Hopen1); [done..|].
  rewrite Hw. cbn [mbind option_bind].
  apply writeNode_ok in Hw as (_ & _ & _ & _ & -> & _);
    [|by destruct Hopen0|by rewrite recordBuf_size].
  rewrite decide_False by lia.
  destruct (bufio_Write_open b1 dataSectionSeparator Hopen1) as (b2 & -> & Hopen2).
  destruct (Buffer_WriteTo_open (dw_buf dw1) b2 Hopen2) as (b3 & -> & Hopen3).
  destruct (bufio_Write_open b3 metadataStartMarker Hopen3) as (b4 & -> & Hopen4).
  unfold writeMetadata, DataType_writeTo.
  destruct (bufio_Write_open b4 (encode (metadata t)) Hopen4) as (b5 & -> & Hopen5).
  destruct Hopen5 as (_ & Herr5 & Hroom5).
  destruct (bufio_Flush_open b5 Herr5 Hroom5) as (b6 & -> & _).
  by eauto.
Qed.

(** Finalize numbers the internal nodes and counts them. *)
Lemma node_finalize_preorder (n : node) (k : Z) :
  (node_finalize n k).2 = k + len (preorder n) ∧
  len (preorder (node_finalize n k).1) = len (preorder n) ∧
  isLeaf (node_finalize n k).1 = isLeaf n.
Proof.
  revert k. induction n as [v|c0 IH0 c1 IH1 num]; intros k.
  { simpl. unfold len. simpl. split_and!; [lia|done..]. }
  cbn [node_finalize].
  destruct (IH0 (k + 1)) as (H0 & H0' & _).
  destruct (node_finalize c0 (k + 1)) as [c0' k0]. cbn [fst snd] in *.
  destruct (IH1 k0) as (H1 & H1' & _).
  destruct (node_finalize c1 k0) as [c1' k1]. cbn [fst snd preorder] in *.
  unfold len in *. rewrite !length_cons, !length_app. split_and!; [lia..|done].
Qed.

(** A finalized tree with a trie that is not empty and a record size of the
    format is written without an error to a sink without a limit. *)
Lemma WriteTo_Finalize_open (t : Tree) (w : Sink) :
  recordSize t = 24 ∨ recordSize t = 28 ∨ recordSize t = 32 →
  isLeaf (root t) = false →
  room w = None →
  ∃ w' n, WriteTo (Finalize t) w = Some (w', n, None).
Proof.
  intros Hsz Hleaf Hroom.
  pose proof (node_finalize_preorder (root t) 0) as (Hcount & Hlen & _).
  assert (nodeCount (Finalize t) = len (preorder (root (Finalize t))) ∧
          nodeCount (Finalize t) = len (preorder (root t)) ∧
          recordSize (Finalize t) = recordSize t) as (Hn & Hn' & Hrs).
  { unfold Finalize. destruct (node_finalize (root t) 0) as [r count].
    cbn [fst snd] in *. simpl. split_and!; [lia..|done]. }
  apply WriteTo_open; [by rewrite Hrs| |done..].
  rewrite Hn'. destruct (root t); [done|]. unfold len. simpl. lia.
Qed.

Lemma WriteTo_layout_witness :
  let nodes := (nodeSection tree6_two (preorder (root tree6_two)) newDataWriter).1 in
  let data := dw_buf (nodeSection tree6_two (preorder (root tree6_two)) newDataWriter).2 in
  let marker := [0xAB; 0xCD; 0xEF] ++ bytes_of_string "MaxMind.com" in
  let out := nodes ++ replicate 16 0 ++ data ++ marker ++ encode (metadata tree6_two) in
  file_two = [] ++ out ∧
  220 = len out ∧
  len marker = 14 ∧
  nodeCount tree6_two = len (preorder (root tree6_two)) ∧
  len nodes = nodeCount tree6_two * ((2 * recordSize tree6_two) `quot` 8).
Proof.
  apply (WriteTo_layout tree6_two sink_open {| accepted := file_two; room := None |} 220).
  vm_compute. reflexivity.
Defined.

(** ** Record values that do not fit *)

Lemma byte_shift_mod (x k m : Z) :
  0 ≤ k → k + 8 ≤ m →
  byte_of_int ((x `mod` 2 ^ m) ≫ k) = byte_of_int (x ≫ k).
Proof.
  intros Hk Hm. unfold byte_of_int. change 256 with (2 ^ 8).
  apply Z.bits_inj'. intros n Hn.
  destruct (decide (n < 8)).
  - rewrite !Z.mod_pow2_bits_low, !Z.shiftr_spec by lia.
    rewrite Z.mod_pow2_bits_low by lia. done.
  - rewrite !Z.mod_pow2_bits_high by lia. done.
Qed.

Lemma nibble_shift_mod (x : Z) :
  ((x `mod` 2 ^ 28) ≫ 24) .&. 0x0F = (x ≫ 24) .&. 0x0F.
Proof.
  change 0x0F with (Z.ones 4). rewrite !Z.land_ones by lia.
  apply Z.bits_inj'. intros n Hn.
  destruct (decide (n < 4)).
  - rewrite !Z.mod_pow2_bits_low, !Z.shiftr_spec by lia.
    rewrite Z.mod_pow2_bits_low by lia. done.
  - rewrite !Z.mod_pow2_bits_high by lia. done.
Qed.

(** A record keeps the low [size] bits of each value and nothing else:
    copyRecord, which packs [packRecord] without a check of the values
    ([copyRecord_packRecord]), writes the record of the truncated values. *)
Lemma packRecord_mod (size l r : Z) :
  size = 24 ∨ size = 28 ∨ size = 32 →
  packRecord size (l `mod` 2 ^ size) (r `mod` 2 ^ size) = packRecord size l r.
Proof.
  intros [->|[->| ->]]; unfold packRecord; simpl decide; cbv iota;
    cbn [be_bytes]; rewrite ?nibble_shift_mod;
    rewrite !byte_shift_mod by lia; reflexivity.
Qed.

(** The tree of one node whose left leaf holds 16777195 bytes [b]: the
    value of the right leaf lies at offset 16777199 of the data section. *)
Lemma WriteTo_two_leaves (b : list byte) :
  len b = 16777195 →
  let t := tree_of_two (Bytes b) in
  root t = Node (Leaf (Some (Bytes b))) (Leaf (Some (String "A"))) 0 ∧
  nodeCount t = 1 ∧ recordSize t = 24 ∧
  ∃ dw1 dw2,
    recordValueForNode t (Leaf (Some (Bytes b))) newDataWriter = (dw1, 17, None) ∧
    recordValueForNode t (Leaf (Some (String "A"))) dw1 = (dw2, 2 ^ 24, None) ∧
    ∃ w' n, WriteTo t sink_open = Some (w', n, None) ∧
            take 6 (accepted w') = [0; 0; 17; 0; 0; 0] ∧
            unpackRecord 24 (take 6 (accepted w')) = Some (17, 0).
Proof.
  intros Hlen t.
  assert (encode (Bytes b) = [159; 254; 254; 206] ++ b) as Henc.
  { cbn [encode]. rewrite Hlen. reflexivity. }
  assert (recordValueForNode t (Leaf (Some (Bytes b))) newDataWriter
          = ({| dw_buf := encode (Bytes b);
                dw_pool := {[ encode (Bytes b) := 0 ]} |}, 17, None)) as Hl.
  { unfold recordValueForNode, dataWriter_write.
    cbn [isLeaf value newDataWriter dw_pool dw_buf].
    rewrite lookup_empty. reflexivity. }
  assert (recordValueForNode t (Leaf (Some (String "A")))
            {| dw_buf := encode (Bytes b);
               dw_pool := {[ encode (Bytes b) := 0 ]} |}
          = ({| dw_buf := encode (Bytes b) ++ encode (String "A");
                dw_pool := <[ encode (String "A") := len (encode (Bytes b)) ]>
                             {[ encode (Bytes b) := 0 ]} |},
             2 ^ 24, None)) as Hr.
  { unfold recordValueForNode, dataWriter_write. cbn [isLeaf value dw_pool dw_buf].
    rewrite lookup_singleton_ne by (rewrite Henc; discriminate).
    do 2 f_equal. rewrite Henc, len_app, Hlen. reflexivity. }
  split_and!; [done..|].
  eexists _, _. split; [exact Hl|]. split; [exact Hr|].
  destruct (WriteTo_Finalize_open
              (Insert (Insert tree6_24 net6_low (Bytes b)).1 net6_top (String "A")).1
              sink_open) as (w' & n & Hw); [by left|done|done|].
  fold (tree_of_two (Bytes b)) in Hw. fold t in Hw.
  exists w', n. split; [done|].
  apply WriteTo_ok in Hw as (Hacc & _).
  assert (take 6 (accepted w') = [0; 0; 17; 0; 0; 0]) as ->; [|done].
  rewrite Hacc.
  change (preorder (root t))
    with [(Leaf (Some (Bytes b)), Leaf (Some (String "A")))].
  cbn [nodeSection]. rewrite Hl, Hr. reflexivity.
Qed.

(** C3.  The IPv6 tree with 24-bit records that holds a value of 16777195
    bytes under ::/1 and the string A under 8000::/1 has one node.  The
    record value of its right child is [1 + 16 + 16777199 = 2 ^ 24], which
    does not fit in 24 bits; WriteTo returns no error, and the record it
    has written reads back as [(17, 0)]: the right value is truncated to 0,
    the number of the root. *)
Theorem WriteTo_truncates_record :
  let t := tree_of_two (Bytes zeros_16M) in
  root t = Node (Leaf (Some (Bytes zeros_16M))) (Leaf (Some (String "A"))) 0 ∧
  nodeCount t = 1 ∧ recordSize t = 24 ∧
  ∃ dw1 dw2,
    recordValueForNode t (Leaf (Some (Bytes zeros_16M))) newDataWriter
      = (dw1, 17, None) ∧
    recordValueForNode t (Leaf (Some (String "A"))) dw1 = (dw2, 2 ^ 24, None) ∧
    ∃ w' n, WriteTo t sink_open = Some (w', n, None) ∧
            take 6 (accepted w') = [0; 0; 17; 0; 0; 0] ∧
            unpackRecord 24 (take 6 (accepted w')) = Some (17, 0).
Proof.
  apply (WriteTo_two_leaves zeros_16M).
  unfold zeros_16M, len. rewrite length_replicate. apply Z2Nat.id. lia.
Qed.

(** ** The numbers of a finalized tree *)

(** After Finalize the internal nodes carry, in pre-order, the numbers from
    0 up to the node count, so the record at position [i] of the node
    section is the record of node [i]. *)
Lemma node_finalize_numbers (n : node) (k : Z) :
  nodeNums (node_finalize n k).1 = seqZ k (len (preorder n)).
Proof.
  revert k. induction n as [v|c0 IH0 c1 IH1 num]; intros k; [done|].
  cbn [node_finalize].
  pose proof (node_finalize_preorder c0 (k + 1)) as (Hnext & _).
  specialize (IH0 (k + 1)).
  destruct (node_finalize c0 (k + 1)) as [c0' k0]. cbn [fst snd] in *.
  specialize (IH1 k0).
  destruct (node_finalize c1 k0) as [c1' k1]. cbn [fst snd nodeNums preorder] in *.
  rewrite IH0, IH1, Hnext. unfold len. rewrite length_cons, length_app.
  rewrite Nat2Z.inj_succ, Nat2Z.inj_add.
  rewrite (seqZ_cons k) by lia. f_equal.
  replace (Z.succ k) with (k + 1) by lia.
  rewrite Z.pred_succ, seqZ_app by lia. done.
Qed.

Lemma Finalize_numbers (t : Tree) :
  nodeNums (root (Finalize t)) = seqZ 0 (nodeCount (Finalize t)).
Proof.
  pose proof (node_finalize_numbers (root t) 0) as Hnums.
  pose proof (node_finalize_preorder (root t) 0) as (Hcount & _).
  unfold Finalize. destruct (node_finalize (root t) 0) as [r count].
  cbn [fst snd] in *. simpl. rewrite Hnums. f_equal. lia.
Qed.

(** ** The record values that WriteTo packs *)

Lemma nodeSection_spec (t : Tree) (slots : list (node * node)) (dw : dataWriter) :
  nodeSection t slots dw =
    let '(values, dw') := recordValues_spec (nodeCount t) slots dw in
    (packRecords (recordSize t) values, dw').
Proof.
  revert dw. induction slots as [|[c0 c1] slots IH]; intros dw; [done|].
  cbn [nodeSection recordValues_spec]. rewrite !recordValueForNode_spec.
  destruct (recordValue_spec (nodeCount t) c0 dw) as [dw1 l].
  rewrite !recordValueForNode_spec.
  destruct (recordValue_spec (nodeCount t) c1 dw1) as [dw2 r].
  rewrite IH. by destruct (recordValues_spec (nodeCount t) slots dw2).
Qed.

Lemma recordValues_spec_length (count : Z) (slots : list (node * node))
    (dw : dataWriter) :
  length (recordValues_spec count slots dw).1 = length slots.
Proof.
  revert dw. induction slots as [|[c0 c1] slots IH]; intros dw; [done|].
  cbn [recordValues_spec].
  destruct (recordValue_spec count c0 dw) as [dw1 l].
  destruct (recordValue_spec count c1 dw1) as [dw2 r].
  specialize (IH dw2). destruct (recordValues_spec count slots dw2).
  simpl in *. by rewrite IH.
Qed.

Lemma packRecords_lookup (size : Z) (values : list (Z * Z)) (i : nat) (l r : Z)
    (rest : list byte) :
  size = 24 ∨ size = 28 ∨ size = 32 →
  values !! i = Some (l, r) →
  let width := Z.to_nat ((2 * size) `quot` 8) in
  take width (drop (i * width) (packRecords size values ++ rest))
    = packRecord size l r.
Proof.
  intros Hsz Hi width. revert i Hi.
  induction values as [|[l0 r0] values IH]; intros i Hi; [done|].
  unfold packRecords in *. cbn [fmap list_fmap concat fst snd].
  pose proof (packRecord_len size l0 r0 Hsz) as Hlen.
  assert (length (packRecord size l0 r0) = width) as Hw.
  { unfold len in Hlen. subst width. lia. }
  rewrite <-(assoc_L (++)).
  destruct i as [|i]; simpl in Hi.
  - injection Hi as Hl Hr. rewrite <-Hl, <-Hr.
    change (0 * width)%nat with 0%nat. rewrite drop_0.
    by rewrite take_app_length'.
  - replace (S i * width)%nat with (length (packRecord size l0 r0) + i * width)%nat by lia.
    rewrite drop_app_add. by apply IH.
Qed.

(** A WriteTo without an error has packed a record, so the record size is
    one of the format. *)
Lemma WriteTo_ok_size (t : Tree) (w w' : Sink) (n : Z) :
  WriteTo t w = Some (w', n, None) →
  recordSize t = 24 ∨ recordSize t = 28 ∨ recordSize t = 32.
Proof.
  intros Hw. unfold WriteTo in Hw.
  case_decide as Hcount; [done|].
  destruct (make_bytes _) as [buf|] eqn:Hbuf; [|done].
  apply make_bytes_Some in Hbuf. cbn [mbind option_bind] in Hw.
  destruct (writeNode t _ (root t) newDataWriter buf)
    as [[[[b1 dw1] buf1] [[k nb] e]]|] eqn:Hnodes; [|done].
  cbn [mbind option_bind] in Hw.
  destruct e as [e|]; [by destruct (bufio.Flush b1); simplify_eq|].
  destruct (bufio_NewWriter_wf w) as [Hwf0 Hs0].
  apply writeNode_ok in Hnodes as (_ & _ & _ & _ & _ & _ & Hsz); [|done..].
  case_decide as Hk; [by destruct (bufio.Flush b1); simplify_eq|].
  apply Hsz. lia.
Qed.

(** C2.  WriteTo of a finalized tree, when it returns no error.  The
    record value that recordValueForNode computes for a child slot is the
    one of the specification: the child's node number when the child is an
    internal node, the node count when it is an empty leaf, and the node
    count plus 16 plus [o] when it is a valued leaf, [o] being the offset
    that the data writer returns for the leaf's value.  The node count is
    the number of the internal nodes, which carry the numbers 0, 1, ... in
    pre-order.  The node section that has been written is the packing of
    these values, slot by slot in pre-order and the left value of a slot
    before its right one; the record of slot [i] lies at [i] times the
    width of a record. *)
Theorem WriteTo_record_values (t : Tree) (w w' : Sink) (n : Z) :
  WriteTo (Finalize t) w = Some (w', n, None) →
  let ft := Finalize t in
  let slots := preorder (root ft) in
  let values := (recordValues_spec (nodeCount ft) slots newDataWriter).1 in
  let data := dw_buf (recordValues_spec (nodeCount ft) slots newDataWriter).2 in
  let width := Z.to_nat ((2 * recordSize ft) `quot` 8) in
  (∀ (child : node) (dw : dataWriter),
     recordValueForNode ft child dw =
       let '(dw', x) := recordValue_spec (nodeCount ft) child dw in
       (dw', x, None)) ∧
  nodeCount ft = len slots ∧
  nodeNums (root ft) = seqZ 0 (nodeCount ft) ∧
  length values = length slots ∧
  (∃ rest, accepted w' = accepted w ++ packRecords (recordSize ft) values
                           ++ replicate 16 0 ++ data ++ rest) ∧
  (∀ (i : nat) (l r : Z),
     values !! i = Some (l, r) →
     take width (drop (i * width) (drop (length (accepted w)) (accepted w')))
       = packRecord (recordSize ft) l r).
Proof.
  intros Hw ft slots values data width.
  pose proof (WriteTo_ok_size _ _ _ _ Hw) as Hsz.
  apply WriteTo_ok in Hw as (Hacc & _ & _ & Hcount & _).
  fold ft slots in Hacc, Hcount, Hsz.
  rewrite nodeSection_spec in Hacc. fold values data in Hacc.
  assert (accepted w' = accepted w ++ packRecords (recordSize ft) values
            ++ replicate 16 0 ++ data ++ metadataStartMarker
            ++ encode (metadata ft)) as Hout.
  { rewrite Hacc. subst values data.
    by destruct (recordValues_spec (nodeCount ft) slots newDataWriter). }
  split_and!.
  - intros child dw. apply recordValueForNode_spec.
  - done.
  - apply Finalize_numbers.
  - apply recordValues_spec_length.
  - by eexists.
  - intros i l r Hi. rewrite Hout, drop_app_length.
    by apply packRecords_lookup.
Qed.

Lemma WriteTo_record_values_witness :
  let ft := tree6_two in
  let slots := preorder (root ft) in
  let values := (recordValues_spec (nodeCount ft) slots newDataWriter).1 in
  let data := dw_buf (recordValues_spec (nodeCount ft) slots newDataWriter).2 in
  let width := Z.to_nat ((2 * recordSize ft) `quot` 8) in
  (∀ (child : node) (dw : dataWriter),
     recordValueForNode ft child dw =
       let '(dw', x) := recordValue_spec (nodeCount ft) child dw in
       (dw', x, None)) ∧
  nodeCount ft = len slots ∧
  nodeNums (root ft) = seqZ 0 (nodeCount ft) ∧
  length values = length slots ∧
  (∃ rest, file_two = [] ++ packRecords (recordSize ft) values
                           ++ replicate 16 0 ++ data ++ rest) ∧
  (∀ (i : nat) (l r : Z),
     values !! i = Some (l, r) →
     take width (drop (i * width) (drop 0 file_two))
       = packRecord (recordSize ft) l r).
Proof.
  apply (WriteTo_record_values
           (Insert (Insert tree6 net6_low (String "A")).1
                   net6_high (Map [("country"%string, String "US")])).1
           sink_open {| accepted := file_two; room := None |} 220).
  vm_compute. reflexivity.
Defined.

(** ** The scenarios of the specification *)

(** A single /32 in an IPv6 tree makes 128 nodes. *)
Example scenario_single_insert :
  nodeCount tree6_one = 128 ∧
  (Get tree6_one [1; 1; 1; 1]).2 = Some (String "A") ∧
  (Get tree6_one [1; 1; 1; 2]).2 = None.
Proof. vm_compute. done. Qed.

(** Overlapping networks: the last write wins. *)
Example scenario_last_write_wins :
  let t := (Insert (Insert tree6 net_10_8 (String "X")).1
                   net_10_1_16 (String "Y")).1 in
  (Get t [10; 1; 2; 3]).2 = Some (String "Y") ∧
  (Get t [10; 2; 2; 3]).2 = Some (String "X") ∧
  (Get t [11; 2; 2; 3]).2 = None.
Proof. vm_compute. done. Qed.

(** A broader network inserted later overwrites the subtree. *)
Example scenario_broadening :
  let t := (Insert (Insert tree6 net_10_1_16 (String "Y")).1
                   net_10_8 (String "X")).1 in
  (Get t [10; 1; 2; 3]).2 = Some (String "X").
Proof. vm_compute. done. Qed.

(** Two leaves with the same value share one copy in the data section. *)
Example scenario_pooling :
  let t := Finalize (Insert (Insert tree6 net_db8 country_US).1
                            net_db9 country_US).1 in
  dw_buf (nodeSection t (preorder (root t)) newDataWriter).2 = encode country_US ∧
  nodeCount t = 32.
Proof. vm_compute. done. Qed.

(** * Further properties *)

(** ** WriteTo over a sink that fails *)

Lemma takes_refl (b : bufio.Writer) : bufio_wf b → takes b b [].
Proof. intros. split_and!; [done|by rewrite app_nil_r|done]. Qed.

Lemma takes_trans (b1 b2 b3 : bufio.Writer) (x y : list byte) :
  takes b1 b2 x → takes b2 b3 y → takes b1 b3 (x ++ y).
Proof.
  intros (_ & Hs1 & Hp1) (Hwf & Hs2 & Hp2). split_and!; [done| |by etrans].
  by rewrite Hs2, Hs1, (assoc_L (++)).
Qed.

Lemma len_nonneg {A} (l : list A) : 0 ≤ len l.
Proof. unfold len. lia. Qed.

Lemma len_take {A} (l : list A) (n : Z) :
  0 ≤ n ≤ len l → len (take (Z.to_nat n) l) = n.
Proof. intros Hn. unfold len in *. rewrite length_take. lia. Qed.

Lemma take_len {A} (l : list A) : take (Z.to_nat (len l)) l = l.
Proof. unfold len. by rewrite Nat2Z.id, firstn_all. Qed.

Lemma take_app_len {A} (l k : list A) (n : Z) :
  0 ≤ n →
  take (Z.to_nat (len l + n)) (l ++ k) = l ++ take (Z.to_nat n) k.
Proof.
  intros Hn. unfold len. rewrite Z2Nat.inj_add, Nat2Z.id by lia.
  by rewrite take_app_add'.
Qed.

Lemma take_app_short {A} (l k : list A) (n : Z) :
  n ≤ len l → take (Z.to_nat n) (l ++ k) = take (Z.to_nat n) l.
Proof. intros Hn. apply take_app_le. unfold len in Hn. lia. Qed.

(** What the sink does with a write, whether it fails or not. *)
Lemma Sink_Write_any (w w' : Sink) (p : list byte) (n : Z) (e : option error) :
  Sink_Write w p = (w', n, e) →
  accepted w' = accepted w ++ take (Z.to_nat n) p ∧ 0 ≤ n ≤ len p ∧
  (e = None → n = len p).
Proof.
  unfold Sink_Write. intros Hw.
  destruct (room w) as [c|]; [case_decide|]; simplify_eq/=;
    rewrite ?take_len, ?Nat2Z.id; unfold len; split_and!; try done; lia.
Qed.

Lemma bufio_Flush_takes (b : bufio.Writer) :
  bufio_wf b → takes b (bufio.Flush b).1 [].
Proof.
  intros Hwf. unfold bufio.Flush.
  destruct (bufio.b_err b); [by apply takes_refl|].
  case_decide; [by apply takes_refl|].
  destruct (Sink_Write _ _) as [[wr n] err] eqn:Hw.
  apply Sink_Write_any in Hw as (Hacc & Hn & Hok).
  unfold takes, stream, bufio_wf in *. rewrite app_nil_r.
  destruct err as [e|]; simpl.
  - rewrite andb_false_r. simpl. rewrite Hacc, <-(assoc_L (++)), take_drop.
    split_and!; [|done|by eexists]. unfold len in *. rewrite length_drop. lia.
  - rewrite Hok in * by done. rewrite bool_decide_false by (unfold bufio.Buffered; lia).
    simpl. rewrite Hacc, take_len, app_nil_r. split_and!; [done..|by eexists].
Qed.

Lemma bufio_Write_loop_takes (fuel : nat) (b b' : bufio.Writer)
    (p p' : list byte) (nn nn' : Z) :
  bufio_wf b →
  bufio.Write_loop fuel b p nn = (b', p', nn') →
  ∃ k, 0 ≤ k ≤ len p ∧ nn' = nn + k ∧ p' = drop (Z.to_nat k) p ∧
       takes b b' (take (Z.to_nat k) p).
Proof.
  revert b p nn. induction fuel as [|fuel IH]; intros b p nn Hwf Hloop.
  { cbn in Hloop. injection Hloop as <- <- <-. exists 0.
    pose proof (len_nonneg p).
    split; [lia|]. split; [lia|]. split; [done|by apply takes_refl]. }
  cbn [bufio.Write_loop] in Hloop.
  destruct (bool_decide (len p > bufio.Available b) && bool_decide (bufio.b_err b = None))
    eqn:Hcond.
  2: { injection Hloop as <- <- <-. exists 0. pose proof (len_nonneg p).
       split; [lia|]. split; [lia|]. split; [done|by apply takes_refl]. }
  apply andb_prop in Hcond as [Hlen%bool_decide_eq_true Hb%bool_decide_eq_true].
  destruct (decide (bufio.Buffered b = 0)) as [Hbuf|Hbuf].
  - destruct (Sink_Write (bufio.b_wr b) p) as [[wr n] err] eqn:Hw.
    apply Sink_Write_any in Hw as (Hacc & Hn & _).
    apply IH in Hloop as (k & Hk & -> & -> & Htakes); [|done].
    assert (len (drop (Z.to_nat n) p) = len p - n) as Hdrop.
    { unfold len in *. rewrite length_drop. lia. }
    exists (n + k). split; [lia|]. split; [lia|]. split.
    + rewrite drop_drop. f_equal. lia.
    + replace (take (Z.to_nat (n + k)) p)
        with (take (Z.to_nat n) p ++ take (Z.to_nat k) (drop (Z.to_nat n) p)).
      2: { rewrite Z2Nat.inj_add by lia. by rewrite take_take_drop. }
      eapply takes_trans; [|done].
      unfold bufio.Buffered in Hbuf. apply len_nil_inv in Hbuf.
      unfold takes, stream, bufio_wf in *. simpl. rewrite Hbuf, Hacc, !app_nil_r.
      split_and!; [done..|by eexists].
  - assert (len (bufio.b_buf b) ≤ 4096) as Hwf0 by done.
    unfold bufio.Available, bufio.defaultBufSize in Hloop, Hlen.
    rewrite Z.min_l in Hloop by lia.
    set (n := 4096 - len (bufio.b_buf b)) in *.
    set (b1 := {| bufio.b_err := bufio.b_err b;
                  bufio.b_buf := bufio.b_buf b ++ take (Z.to_nat n) p;
                  bufio.b_wr := bufio.b_wr b |}) in *.
    assert (len (take (Z.to_nat n) p) = n) as Htake by (apply len_take; lia).
    assert (takes b b1 (take (Z.to_nat n) p)) as Hfill.
    { unfold takes, stream, bufio_wf, b1, bufio.defaultBufSize. simpl.
      rewrite len_app, (assoc_L (++)). split_and!; [lia|done|done]. }
    pose proof (bufio_Flush_takes b1 (proj1 Hfill)) as Hflush.
    destruct (bufio.Flush b1) as [b2 e2]. simpl in Hflush.
    apply IH in Hloop as (k & Hk & -> & -> & Htakes); [|by destruct Hflush].
    assert (len (drop (Z.to_nat n) p) = len p - n) as Hdrop.
    { unfold len in *. rewrite length_drop. lia. }
    exists (n + k). split; [lia|]. split; [lia|]. split.
    + rewrite drop_drop. f_equal. lia.
    + replace (take (Z.to_nat (n + k)) p)
        with ((take (Z.to_nat n) p ++ []) ++ take (Z.to_nat k) (drop (Z.to_nat n) p)).
      2: { rewrite app_nil_r, Z2Nat.inj_add by lia. by rewrite take_take_drop. }
      eapply takes_trans; [|done]. by eapply takes_trans.
Qed.

(** Write takes a prefix of [p], all of it when it returns no error. *)
Lemma bufio_Write_takes (b b' : bufio.Writer) (p : list byte) (n : Z)
    (e : option error) :
  bufio_wf b →
  bufio.Write b p = (b', n, e) →
  0 ≤ n ≤ len p ∧ takes b b' (take (Z.to_nat n) p) ∧ (e = None → n = len p).
Proof.
  intros Hwf Hw.
  assert (e = None → n = len p) as Hok.
  { intros ->. by apply bufio_Write_ok in Hw as (_ & _ & ->). }
  unfold bufio.Write in Hw.
  destruct (bufio.Write_loop 2 b p 0) as [[b1 p1] nn1] eqn:Hloop.
  apply bufio_Write_loop_takes in Hloop as (k & Hk & -> & -> & Htakes); [|done].
  assert (len (drop (Z.to_nat k) p) = len p - k) as Hdrop.
  { unfold len in *. rewrite length_drop. lia. }
  destruct (bufio.b_err b1) eqn:Herr.
  { injection Hw as <- <- <-. rewrite Z.add_0_l. split; [lia|done]. }
  set (m := bufio.Available b1 `min` len (drop (Z.to_nat k) p)) in *.
  injection Hw as <- <- <-. rewrite Z.add_0_l in *.
  destruct Htakes as (Hwf1 & Hs & Hp).
  assert (0 ≤ m ≤ len p - k ∧ len (bufio.b_buf b1) + m ≤ 4096) as [Hm Hm'].
  { unfold m, bufio.Available, bufio.defaultBufSize. unfold bufio_wf in Hwf1.
    unfold bufio.defaultBufSize in Hwf1. lia. }
  split; [lia|]. split; [|done].
  replace (take (Z.to_nat (k + m)) p)
    with (take (Z.to_nat k) p ++ take (Z.to_nat m) (drop (Z.to_nat k) p)).
  2: { rewrite Z2Nat.inj_add by lia. by rewrite take_take_drop. }
  unfold takes, stream, bufio_wf, bufio.defaultBufSize in *. simpl.
  rewrite len_app, len_take by lia.
  split_and!; [lia| |done].
  by rewrite (assoc_L (++)), Hs, (assoc_L (++)).
Qed.

Lemma Buffer_WriteTo_takes (data : list byte) (b b' : bufio.Writer) (n : Z)
    (e : option error) :
  bufio_wf b →
  bytes.Buffer_WriteTo data b = (b', n, e) →
  0 ≤ n ≤ len data ∧ takes b b' (take (Z.to_nat n) data) ∧
  (e = None → n = len data).
Proof.
  intros Hwf. unfold bytes.Buffer_WriteTo. case_decide as Hlen.
  - destruct (bufio.Write b data) as [[b1 m] e1] eqn:Hw.
    apply bufio_Write_takes in Hw as (Hm & Htakes & Hok); [|done].
    destruct e1 as [e1|].
    + intros ?; simplify_eq. exact (conj Hm (conj Htakes Hok)).
    + destruct (decide (m ≠ len data)) as [Hne|_]; [by destruct Hne; apply Hok|].
      intros ?; simplify_eq. exact (conj Hm (conj Htakes Hok)).
  - intros ?; simplify_eq. pose proof (len_nonneg data).
    split; [lia|]. split; [by apply takes_refl|]. lia.
Qed.

Lemma writeNode_takes (t : Tree) (n : node) (w w' : bufio.Writer)
    (dw dw' : dataWriter) (buf buf' : list byte) (k nb : Z) (e : option error) :
  bufio_wf w →
  len buf = wrap_int (2 * recordSize t) `quot` 8 →
  writeNode t w n dw buf = Some (w', dw', buf', (k, nb, e)) →
  0 ≤ nb ≤ len (nodeSection t (preorder n) dw).1 ∧
  takes w w' (take (Z.to_nat nb) (nodeSection t (preorder n) dw).1) ∧
  len buf' = wrap_int (2 * recordSize t) `quot` 8.
Proof.
  revert w w' dw dw' buf buf' k nb e.
  induction n as [v|c0 IH0 c1 IH1 num];
    intros w w' dw dw' buf buf' k nb e Hwf Hlen Hw.
  { simpl in *. simplify_eq. split; [done|]. split; [by apply takes_refl|done]. }
  cbn [writeNode] in Hw. cbn [preorder nodeSection].
  destruct (recordValueForNode_no_error t c0 dw) as (dw1 & l & Hl).
  destruct (recordValueForNode_no_error t c1 dw1) as (dw2 & r & Hr).
  rewrite Hl, Hr, nodeSection_app.
  destruct (decide (recordSize t = 24 ∨ recordSize t = 28 ∨ recordSize t = 32))
    as [Hsz|Hsz].
  2: { destruct (copyRecord_unsupported t buf (c0, c1) dw) as (dw3 & Hc); [lia|].
       rewrite Hc in Hw. simplify_eq/=.
       destruct (nodeSection t (preorder c0) dw2) as [b0 dw4].
       destruct (nodeSection t (preorder c1) dw4) as [b1 dw5]. cbn [fst].
       pose proof (len_nonneg (packRecord (recordSize t) l r ++ b0 ++ b1)).
       split; [lia|]. split; [by apply takes_refl|done]. }
  rewrite recordBuf_size in Hlen, IH0, IH1 |- * by done.
  rewrite (copyRecord_packRecord t Hsz buf c0 c1 dw dw1 dw2 l r) in Hw by done.
  cbn [mbind option_bind] in Hw.
  set (rec := packRecord (recordSize t) l r) in *.
  pose proof (packRecord_len (recordSize t) l r Hsz) as Hplen. fold rec in Hplen.
  destruct (bufio.Write w rec) as [[w1 nb1] e1] eqn:Hw1.
  apply bufio_Write_takes in Hw1 as (Hnb1 & Ht1 & Hok1); [|done].
  pose proof (nodeSection_app t (preorder c0) (preorder c1) dw2) as Happ.
  destruct (nodeSection t (preorder c0) dw2) as [b0 dw3] eqn:Hn0.
  destruct (nodeSection t (preorder c1) dw3) as [b1 dw4] eqn:Hn1. cbn [fst].
  pose proof (len_nonneg b0). pose proof (len_nonneg b1).
  destruct e1 as [e1|].
  { simplify_eq/=. rewrite Z.add_0_l, !len_app.
    split; [lia|]. split; [|done]. by rewrite take_app_short by lia. }
  rewrite Hok1 in * by done.
  destruct (writeNode t w1 c0 dw2 rec) as [[[[w2 dw3'] buf2] [[k0 nb0] e2]]|] eqn:Hw2;
    [|done].
  cbn [mbind option_bind] in Hw.
  pose proof Hw2 as Htk2.
  apply IH0 in Htk2 as (Hnb0 & Ht2 & Hlen2); [|by destruct Ht1|done].
  rewrite Hn0 in Hnb0, Ht2. cbn [fst] in Hnb0, Ht2.
  destruct e2 as [e2|].
  { simplify_eq/=. rewrite Z.add_0_l, !len_app.
    split; [lia|]. split; [|done].
    rewrite take_app_len, take_app_short by lia.
    rewrite take_len in Ht1. by eapply takes_trans. }
  apply writeNode_ok in Hw2 as (_ & _ & _ & Hdw3 & _ & Hnb0' & _);
    [|by destruct Ht1|by rewrite recordBuf_size].
  rewrite Hn0 in Hdw3, Hnb0'. cbn [fst snd] in Hdw3, Hnb0'. subst dw3' nb0.
  destruct (writeNode t w2 c1 dw3 buf2) as [[[[w3 dw4'] buf3] [[k1 nb2] e3]]|] eqn:Hw3;
    [|done].
  cbn [mbind option_bind] in Hw. simplify_eq.
  apply IH1 in Hw3 as (Hnb2 & Ht3 & Hlen3); [|by destruct Ht2|done].
  rewrite Hn1 in Hnb2, Ht3. cbn [fst] in Hnb2, Ht3.
  rewrite Z.add_0_l, !len_app. split; [lia|]. split; [|done].
  rewrite <-Z.add_assoc, take_app_len, take_app_len by lia.
  rewrite !take_len in *.
  eapply takes_trans; [done|]. by eapply takes_trans.
Qed.

(** What the sink has received when the writer that was created over it has
    taken [x]. *)
Lemma takes_sink (w : Sink) (b : bufio.Writer) (x : list byte) :
  takes (bufio.NewWriter w) b x →
  ∃ y, accepted (bufio.b_wr (bufio.Flush b).1) = accepted w ++ y ∧
       y `prefix_of` x.
Proof.
  intros Ht. pose proof (bufio_Flush_takes b (proj1 Ht)) as Hf.
  pose proof (takes_trans _ _ _ _ _ Ht Hf) as (_ & Hs & [y Hy]).
  rewrite app_nil_r in Hs. unfold stream in Hs. simpl in *.
  exists y. split; [done|]. rewrite Hy, app_nil_r, <-(assoc_L (++)) in Hs.
  apply app_inv_head in Hs. by eexists.
Qed.

(** X1.  Whatever WriteTo returns, with or without an error, and whatever
    the sink does: the count lies between 0 and the length of the database
    file of the tree, and the bytes that the sink has accepted during the
    call are a prefix of the first [n] bytes of that file.  Nothing but the
    file is written, in order, and the count is never below the number of
    bytes that reached the sink. *)
Theorem WriteTo_prefix (t : Tree) (w w' : Sink) (n : Z) (e : option error) :
  WriteTo t w = Some (w', n, e) →
  0 ≤ n ≤ len (databaseFile t) ∧
  ∃ y, accepted w' = accepted w ++ y ∧
       y `prefix_of` take (Z.to_nat n) (databaseFile t).
Proof.
  intros Hw. unfold WriteTo in Hw.
  pose proof (len_nonneg (databaseFile t)) as Hfile.
  case_decide as Hcount.
  { injection Hw as <- <- <-. split; [lia|]. exists []. by rewrite app_nil_r. }
  destruct (make_bytes _) as [buf|] eqn:Hbuf; [|done].
  apply make_bytes_Some in Hbuf. cbn [mbind option_bind] in Hw.
  destruct (writeNode t _ (root t) newDataWriter buf)
    as [[[[b1 dw1] buf1] [[k nb] e1]]|] eqn:Hnodes; [|done].
  cbn [mbind option_bind] in Hw.
  destruct (bufio_NewWriter_wf w) as [Hwf0 _].
  pose proof Hnodes as Ht1.
  apply writeNode_takes in Ht1 as (Hnb & Ht1 & _); [|done..].
  unfold databaseFile in *.
  destruct (nodeSection t (preorder (root t)) newDataWriter) as [nodes dw] eqn:Hsec.
  cbn [fst] in *. rewrite !len_app in *.
  pose proof (len_nonneg (dw_buf dw)). pose proof (len_nonneg (encode (metadata t))).
  pose proof (len_nonneg dataSectionSeparator).
  pose proof (len_nonneg metadataStartMarker).
  destruct e1 as [e1|].
  { destruct (takes_sink w b1 _ Ht1) as (y & Hy & Hpre).
    destruct (bufio.Flush b1) as [bf ?]. cbn [fst] in Hy. injection Hw as <- <- <-.
    split; [lia|]. exists y. split; [done|]. by rewrite take_app_short by lia. }
  apply writeNode_ok in Hnodes as (_ & _ & _ & Hdw & _ & Hnb' & _); [|done..].
  rewrite Hsec in Hdw, Hnb'. cbn [fst snd] in Hdw, Hnb'. subst dw1 nb.
  rewrite take_len in Ht1.
  case_decide as Hk.
  { destruct (takes_sink w b1 _ Ht1) as (y & Hy & Hpre).
    destruct (bufio.Flush b1) as [bf ?]. cbn [fst] in Hy. injection Hw as <- <- <-.
    split; [lia|]. exists y. split; [done|].
    by rewrite take_app_short, take_len by lia. }
  destruct (bufio.Write b1 dataSectionSeparator) as [[b2 nb2] e2] eqn:Hsep.
  apply bufio_Write_takes in Hsep as (Hnb2 & Ht2 & Hok2); [|by destruct Ht1].
  pose proof (takes_trans _ _ _ _ _ Ht1 Ht2) as Ht12.
  destruct e2 as [e2|].
  { destruct (takes_sink w b2 _ Ht12) as (y & Hy & Hpre).
    destruct (bufio.Flush b2) as [bf ?]. cbn [fst] in Hy. injection Hw as <- <- <-.
    split; [lia|]. exists y. split; [done|].
    by rewrite take_app_len, take_app_short by lia. }
  rewrite Hok2, take_len in * by done.
  destruct (bytes.Buffer_WriteTo _ b2) as [[b3 nb3] e3] eqn:Hdata.
  apply Buffer_WriteTo_takes in Hdata as (Hnb3 & Ht3 & Hok3); [|by destruct Ht2].
  pose proof (takes_trans _ _ _ _ _ Ht12 Ht3) as Ht13.
  destruct e3 as [e3|].
  { destruct (takes_sink w b3 _ Ht13) as (y & Hy & Hpre).
    destruct (bufio.Flush b3) as [bf ?]. cbn [fst] in Hy. injection Hw as <- <- <-.
    split; [lia|]. exists y. split; [done|].
    rewrite <-Z.add_assoc, !take_app_len, take_app_short by lia.
    by rewrite <-(assoc_L (++)) in Hpre. }
  rewrite Hok3, take_len in * by done.
  destruct (bufio.Write b3 metadataStartMarker) as [[b4 nb4] e4] eqn:Hmark.
  apply bufio_Write_takes in Hmark as (Hnb4 & Ht4 & Hok4); [|by destruct Ht3].
  pose proof (takes_trans _ _ _ _ _ Ht13 Ht4) as Ht14.
  destruct e4 as [e4|].
  { destruct (takes_sink w b4 _ Ht14) as (y & Hy & Hpre).
    destruct (bufio.Flush b4) as [bf ?]. cbn [fst] in Hy. injection Hw as <- <- <-.
    split; [lia|]. exists y. split; [done|].
    rewrite <-!Z.add_assoc, !take_app_len, take_app_short by lia.
    by rewrite <-!(assoc_L (++)) in Hpre. }
  rewrite Hok4, take_len in * by done.
  unfold writeMetadata, DataType_writeTo in Hw.
  destruct (bufio.Write b4 (encode (metadata t))) as [[b5 nb5] e5] eqn:Hmeta.
  apply bufio_Write_takes in Hmeta as (Hnb5 & Ht5 & Hok5); [|by destruct Ht4].
  pose proof (takes_trans _ _ _ _ _ Ht14 Ht5) as Ht15.
  destruct (takes_sink w b5 _ Ht15) as (y & Hy & Hpre).
  assert (accepted w' = accepted w ++ y ∧ n = len nodes + len dataSectionSeparator
            + len (dw_buf dw) + len metadataStartMarker + nb5) as [Hacc ->].
  { destruct e5 as [e5|]; destruct (bufio.Flush b5) as [bf [ef|]];
      cbn [fst] in Hy; injection Hw as <- <- <-; done. }
  split; [lia|]. exists y. split; [done|].
  rewrite <-!Z.add_assoc, !take_app_len by lia.
  by rewrite <-!(assoc_L (++)) in Hpre.
Qed.

Lemma WriteTo_prefix_witness :
  0 ≤ 220 ≤ len (databaseFile tree6_two) ∧
  ∃ y, take 10 file_two = [] ++ y ∧
       y `prefix_of` take (Z.to_nat 220) (databaseFile tree6_two).
Proof.
  apply (WriteTo_prefix tree6_two sink_ten
           {| accepted := take 10 file_two; room := Some 0%nat |} 220
           (Some (ErrWrap ErrSink "error flushing buffer to writer"))).
  vm_compute. reflexivity.
Defined.

(** ** Finalize and then WriteTo *)

Lemma databaseFile_eq (t : Tree) :
  databaseFile t =
    (nodeSection t (preorder (root t)) newDataWriter).1 ++ replicate 16 0
    ++ dw_buf (nodeSection t (preorder (root t)) newDataWriter).2
    ++ ([0xAB; 0xCD; 0xEF] ++ bytes_of_string "MaxMind.com")
    ++ encode (metadata t).
Proof. unfold databaseFile. by destruct (nodeSection _ _ _). Qed.

(** X2.  Finalize and then WriteTo, for a tree with a record size of the
    format and a trie that is not empty, over a sink without a limit:
    WriteTo returns no error, the sink has received the whole database
    file of the finalized tree after what it held, and the count is the
    length of the file. *)
Theorem WriteTo_Finalize_complete (t : Tree) (w : Sink) :
  recordSize t = 24 ∨ recordSize t = 28 ∨ recordSize t = 32 →
  isLeaf (root t) = false →
  room w = None →
  ∃ w', WriteTo (Finalize t) w
          = Some (w', len (databaseFile (Finalize t)), None) ∧
        accepted w' = accepted w ++ databaseFile (Finalize t).
Proof.
  intros Hsz Hleaf Hroom.
  destruct (WriteTo_Finalize_open t w Hsz Hleaf Hroom) as (w' & n & Hw).
  pose proof (WriteTo_ok _ _ _ _ Hw) as (Hacc & Hn & _).
  rewrite <-databaseFile_eq in Hacc, Hn. subst n. by exists w'.
Qed.

Lemma WriteTo_Finalize_complete_witness :
  ∃ w', WriteTo tree6_two sink_open
          = Some (w', len (databaseFile tree6_two), None) ∧
        accepted w' = accepted sink_open ++ databaseFile tree6_two.
Proof.
  apply (WriteTo_Finalize_complete
           (Insert (Insert tree6 net6_low (String "A")).1
                   net6_high (Map [("country"%string, String "US")])).1 sink_open).
  - right; left; reflexivity.
  - reflexivity.
  - reflexivity.
Defined.

(** ** Panics of WriteTo *)

(** With a record buffer of the length that WriteTo allocates, no store of
    copyRecord is out of range: writeNode returns. *)
Lemma writeNode_returns (t : Tree) (n : node) (w : bufio.Writer)
    (dw : dataWriter) (buf : list byte) :
  bufio_wf w →
  len buf = wrap_int (2 * recordSize t) `quot` 8 →
  ∃ r, writeNode t w n dw buf = Some r.
Proof.
  revert w dw buf. induction n as [v|c0 IH0 c1 IH1 num]; intros w dw buf Hwf Hlen.
  { by eexists. }
  cbn [writeNode].
  destruct (decide (recordSize t = 24 ∨ recordSize t = 28 ∨ recordSize t = 32))
    as [Hsz|Hsz].
  2: { destruct (copyRecord_unsupported t buf (c0, c1) dw) as (dw3 & ->); [lia|].
       by eexists. }
  destruct (recordValueForNode_no_error t c0 dw) as (dw1 & l & Hl).
  destruct (recordValueForNode_no_error t c1 dw1) as (dw2 & r & Hr).
  rewrite recordBuf_size in Hlen, IH0, IH1 by done.
  rewrite (copyRecord_packRecord t Hsz buf c0 c1 dw dw1 dw2 l r) by done.
  cbn [mbind option_bind].
  pose proof (packRecord_len (recordSize t) l r Hsz) as Hplen.
  destruct (bufio.Write w _) as [[w1 nb1] e1] eqn:Hw1.
  apply bufio_Write_takes in Hw1 as (_ & (Hwf1 & _) & _); [|done].
  destruct e1 as [e1|]; [by eexists|].
  destruct (IH0 w1 dw2 _ Hwf1 Hplen) as ([[[w2 dw3] buf2] [[k0 nb0] e2]] & Hw2).
  rewrite Hw2. cbn [mbind option_bind].
  destruct e2 as [e2|]; [by eexists|].
  apply writeNode_takes in Hw2 as (_ & (Hwf2 & _) & Hlen2);
    [|done|by rewrite recordBuf_size].
  rewrite recordBuf_size in Hlen2 by done.
  destruct (IH1 w2 dw3 buf2 Hwf2 Hlen2) as ([[[w3 dw4] buf3] [[k1 nb1'] e3]] & ->).
  by eexists.
Qed.

(** WriteTo panics when the allocation of the record buffer does, and only
    then. *)
Lemma WriteTo_returns_iff (t : Tree) (w : Sink) :
  WriteTo t w = None ↔
  nodeCount t ≠ 0 ∧ make_bytes (wrap_int (2 * recordSize t) `quot` 8) = None.
Proof.
  unfold WriteTo. case_decide as Hcount.
  { split; [done|]. by intros [? _]. }
  destruct (make_bytes _) as [buf|] eqn:Hbuf; [|done].
  apply make_bytes_Some in Hbuf. cbn [mbind option_bind].
  destruct (bufio_NewWriter_wf w) as [Hwf0 _].
  destruct (writeNode_returns t (root t) (bufio.NewWriter w) newDataWriter buf)
    as ([[[b1 dw1] buf1] [[k nb] e1]] & ->); [done..|].
  cbn [mbind option_bind]. split; [|by intros [_ ?]].
  intros Hnone. exfalso. revert Hnone.
  repeat (first [case_decide | case_match | done]).
Qed.

(** X3.  With a record size from -3 to 65535, WriteTo returns, whatever the
    tree and the sink: the record buffer is allocated, and no store of
    copyRecord falls outside it. *)
Theorem WriteTo_returns (t : Tree) (w : Sink) :
  -4 < recordSize t < 2 ^ 16 →
  ∃ w' n e, WriteTo t w = Some (w', n, e).
Proof.
  intros Hsz. destruct (WriteTo t w) as [[[w' n] e]|] eqn:Hw; [by eauto|].
  apply WriteTo_returns_iff in Hw as [_ Hmake]. exfalso.
  unfold make_bytes, maxAlloc in Hmake. rewrite wrap_int_small in Hmake by lia.
  case_decide as Hrange; [|done]. revert Hrange. Z.quot_rem_to_equations. lia.
Qed.

Lemma WriteTo_returns_witness :
  ∃ w' n e, WriteTo tree6_two sink_ten = Some (w', n, e).
Proof. apply (WriteTo_returns tree6_two sink_ten). split; reflexivity. Defined.

(** X4.  With a record size from [- 2 ^ 62] to -4 and a node count other
    than 0, WriteTo panics: the length [2 * recordSize / 8] of the record
    buffer is negative, and the buffer is allocated before copyRecord looks
    at the record size. *)
Theorem WriteTo_negative_record_size (t : Tree) (w : Sink) :
  - 2 ^ 62 ≤ recordSize t ≤ -4 →
  nodeCount t ≠ 0 →
  WriteTo t w = None.
Proof.
  intros Hsz Hcount. apply WriteTo_returns_iff. split; [done|].
  unfold make_bytes. rewrite wrap_int_small by lia.
  rewrite decide_True; [done|]. left. Z.quot_rem_to_equations. lia.
Qed.

Lemma WriteTo_negative_record_size_witness :
  WriteTo tree6_neg sink_open = None.
Proof.
  apply (WriteTo_negative_record_size tree6_neg sink_open).
  - split; by vm_compute.
  - by vm_compute.
Defined.

(** ** The errors of WriteTo *)

(** The only error of this sink. *)
Lemma Sink_Write_err (w w' : Sink) (p : list byte) (n : Z) (e : error) :
  Sink_Write w p = (w', n, Some e) → e = ErrSink.
Proof.
  unfold Sink_Write. destruct (room w) as [c|]; [case_decide|];
    intros ?; by simplify_eq.
Qed.

Lemma bufio_Flush_sink_err (b b' : bufio.Writer) (e : option error) :
  sink_err b →
  bufio.Flush b = (b', e) →
  sink_err b' ∧ (e = None ∨ e = Some ErrSink).
Proof.
  unfold sink_err, bufio.Flush. intros Hb.
  destruct (bufio.b_err b) as [e0|] eqn:Herr.
  { intros Hf. injection Hf as <- <-. rewrite Herr.
    destruct Hb as [?|?]; [done|auto]. }
  case_decide.
  { intros Hf. injection Hf as <- <-. rewrite Herr. auto. }
  destruct (Sink_Write _ _) as [[wr n] err] eqn:Hw.
  pose proof (Sink_Write_any _ _ _ _ _ Hw) as (_ & _ & Hok).
  destruct err as [e1|].
  - apply Sink_Write_err in Hw as ->. rewrite andb_false_r.
    intros Hf. injection Hf as <- <-. simpl. auto.
  - rewrite Hok by done. rewrite bool_decide_false by (unfold bufio.Buffered; lia).
    intros Hf. injection Hf as <- <-. simpl. auto.
Qed.

Lemma bufio_Write_loop_sink_err (fuel : nat) (b b' : bufio.Writer)
    (p p' : list byte) (nn nn' : Z) :
  sink_err b →
  bufio.Write_loop fuel b p nn = (b', p', nn') →
  sink_err b'.
Proof.
  revert b p nn. induction fuel as [|fuel IH]; intros b p nn Hb Hloop.
  { cbn in Hloop. by injection Hloop as <- <- <-. }
  cbn [bufio.Write_loop] in Hloop.
  destruct (bool_decide _ && bool_decide _); [|by injection Hloop as <- <- <-].
  destruct (decide (bufio.Buffered b = 0)) as [Hbuf|Hbuf].
  - destruct (Sink_Write (bufio.b_wr b) p) as [[wr n] err] eqn:Hw.
    apply IH in Hloop; [done|]. unfold sink_err. simpl.
    destruct err as [e|]; [|by left]. apply Sink_Write_err in Hw as ->. by right.
  - destruct (bufio.Flush _) as [b2 e2] eqn:Hflush.
    apply bufio_Flush_sink_err in Hflush as [Hb2 _]; [|done].
    by apply IH in Hloop.
Qed.

Lemma bufio_Write_sink_err (b b' : bufio.Writer) (p : list byte) (n : Z)
    (e : option error) :
  sink_err b →
  bufio.Write b p = (b', n, e) →
  sink_err b' ∧ (e = None ∨ e = Some ErrSink).
Proof.
  intros Hb Hw. unfold bufio.Write in Hw.
  destruct (bufio.Write_loop 2 b p 0) as [[b1 p1] nn1] eqn:Hloop.
  apply bufio_Write_loop_sink_err in Hloop; [|done].
  destruct (bufio.b_err b1) as [e1|] eqn:Herr; injection Hw as <- <- <-.
  - split; [done|]. destruct Hloop as [?|?]; [congruence|]. right. congruence.
  - split; [by left|by left].
Qed.

Lemma Buffer_WriteTo_sink_err (data : list byte) (b b' : bufio.Writer) (n : Z)
    (e : option error) :
  bufio_wf b → sink_err b →
  bytes.Buffer_WriteTo data b = (b', n, e) →
  sink_err b' ∧ (e = None ∨ e = Some ErrSink).
Proof.
  intros Hwf Hb. unfold bytes.Buffer_WriteTo. case_decide.
  2: { intros ?; simplify_eq. auto. }
  destruct (bufio.Write b data) as [[b1 m] e1] eqn:Hw.
  pose proof (bufio_Write_sink_err _ _ _ _ _ Hb Hw) as [Hb1 He1].
  destruct e1 as [e1|].
  - intros ?; simplify_eq. auto.
  - apply bufio_Write_ok in Hw as (_ & _ & ->); [|done].
    rewrite decide_False by (intros Hne; by apply Hne).
    intros ?; simplify_eq. auto.
Qed.

Lemma writeNode_sink_err (t : Tree) (n : node) (w w' : bufio.Writer)
    (dw dw' : dataWriter) (buf buf' : list byte) (k nb : Z) (e : option error) :
  bufio_wf w → sink_err w →
  len buf = wrap_int (2 * recordSize t) `quot` 8 →
  writeNode t w n dw buf = Some (w', dw', buf', (k, nb, e)) →
  sink_err w' ∧
  (e = None ∨ e = Some (ErrUnsupportedRecordSize (recordSize t)) ∨
   e = Some (ErrWrap ErrSink "error writing node")).
Proof.
  revert w w' dw dw' buf buf' k nb e.
  induction n as [v|c0 IH0 c1 IH1 num];
    intros w w' dw dw' buf buf' k nb e Hwf Hb Hlen Hw.
  { simpl in Hw. simplify_eq. auto. }
  cbn [writeNode] in Hw.
  destruct (decide (recordSize t = 24 ∨ recordSize t = 28 ∨ recordSize t = 32))
    as [Hsz|Hsz].
  2: { destruct (copyRecord_unsupported t buf (c0, c1) dw) as (dw3 & Hc); [lia|].
       rewrite Hc in Hw. simplify_eq/=. auto. }
  destruct (recordValueForNode_no_error t c0 dw) as (dw1 & l & Hl).
  destruct (recordValueForNode_no_error t c1 dw1) as (dw2 & r & Hr).
  rewrite recordBuf_size in Hlen, IH0, IH1 by done.
  rewrite (copyRecord_packRecord t Hsz buf c0 c1 dw dw1 dw2 l r) in Hw by done.
  cbn [mbind option_bind] in Hw.
  pose proof (packRecord_len (recordSize t) l r Hsz) as Hplen.
  destruct (bufio.Write w _) as [[w1 nb1] e1] eqn:Hw1.
  pose proof (bufio_Write_sink_err _ _ _ _ _ Hb Hw1) as [Hb1 He1].
  apply bufio_Write_takes in Hw1 as (_ & (Hwf1 & _) & _); [|done].
  destruct e1 as [e1|].
  { destruct He1 as [?|?]; simplify_eq. auto. }
  destruct (writeNode t w1 c0 dw2 _) as [[[[w2 dw3] buf2] [[k0 nb0] e2]]|] eqn:Hw2;
    [|done].
  cbn [mbind option_bind] in Hw.
  pose proof (IH0 _ _ _ _ _ _ _ _ _ Hwf1 Hb1 Hplen Hw2) as [Hb2 He2].
  apply writeNode_takes in Hw2 as (_ & (Hwf2 & _) & Hlen2);
    [|done|by rewrite recordBuf_size].
  rewrite recordBuf_size in Hlen2 by done.
  destruct e2 as [e2|].
  { simplify_eq. split; [done|]. destruct He2 as [?|[?|?]]; auto. }
  destruct (writeNode t w2 c1 dw3 buf2) as [[[[w3 dw4] buf3] [[k1 nb2] e3]]|] eqn:Hw3;
    [|done].
  cbn [mbind option_bind] in Hw. simplify_eq.
  by apply (IH1 _ _ _ _ _ _ _ _ _ Hwf2 Hb2 Hlen2 Hw3).
Qed.

(** writeNode reports the record size only when it is not one of the
    format. *)
Lemma writeNode_err_size (t : Tree) (n : node) (w w' : bufio.Writer)
    (dw dw' : dataWriter) (buf buf' : list byte) (k nb : Z) :
  writeNode t w n dw buf
    = Some (w', dw', buf', (k, nb, Some (ErrUnsupportedRecordSize (recordSize t)))) →
  recordSize t ≠ 24 ∧ recordSize t ≠ 28 ∧ recordSize t ≠ 32.
Proof.
  intros Hw.
  destruct (decide (recordSize t = 24 ∨ recordSize t = 28 ∨ recordSize t = 32))
    as [Hsz|Hsz]; [exfalso|lia].
  revert w w' dw dw' buf buf' k nb Hw.
  induction n as [v|c0 IH0 c1 IH1 num]; intros w w' dw dw' buf buf' k nb Hw.
  { simpl in Hw. by simplify_eq. }
  cbn [writeNode] in Hw.
  destruct (copyRecord t buf (c0, c1) dw) as [[[buf1 dw1] e0]|] eqn:Hc; [|done].
  cbn [mbind option_bind] in Hw.
  destruct e0 as [e0|].
  { unfold copyRecord in Hc. cbn [fst snd] in Hc.
    destruct (recordValueForNode_no_error t c0 dw) as (dw2 & l & Hl).
    destruct (recordValueForNode_no_error t c1 dw2) as (dw3 & r & Hr).
    rewrite Hl, Hr in Hc.
    repeat (case_decide; [by destruct Hsz as [?|[?|?]];
                          repeat (destruct (store _ _ _); simplify_eq/=)|]).
    lia. }
  destruct (bufio.Write w buf1) as [[w1 nb1] e1].
  destruct e1 as [e1|]; [by simplify_eq|].
  destruct (writeNode t w1 c0 dw1 buf1) as [[[[w2 dw3] buf2] [[k0 nb0] e2]]|] eqn:Hw2;
    [|done].
  cbn [mbind option_bind] in Hw.
  destruct e2 as [e2|]; [simplify_eq; by eapply IH0|].
  destruct (writeNode t w2 c1 dw3 buf2) as [[[[w3 dw4] buf3] [[k1 nb2] e3]]|] eqn:Hw3;
    [|done].
  cbn [mbind option_bind] in Hw. simplify_eq. by eapply IH1.
Qed.

(** The errors that WriteTo returns. *)
Lemma WriteTo_error_cases (t : Tree) (w w' : Sink) (n : Z) (e : error) :
  WriteTo t w = Some (w', n, Some e) →
  e = ErrNotFinalized ∧ nodeCount t = 0 ∨
  nodeCount t ≠ 0 ∧
  (e = ErrUnsupportedRecordSize (recordSize t) ∧
     recordSize t ≠ 24 ∧ recordSize t ≠ 28 ∧ recordSize t ≠ 32 ∨
   e = ErrNodeCount (len (preorder (root t))) (nodeCount t) ∧
     nodeCount t ≠ len (preorder (root t)) ∨
   e = ErrWrap ErrSink "error writing node" ∨
   e = ErrWrap ErrSink "error writing data section separator" ∨
   e = ErrSink ∨
   e = ErrWrap ErrSink "error writing metadata start marker" ∨
   e = ErrWrap ErrSink "error writing metadata" ∨
   e = ErrWrap ErrSink "error flushing buffer to writer").
Proof.
  intros Hw. unfold WriteTo in Hw.
  case_decide as Hcount; [left; by simplify_eq|]. right. split; [done|].
  destruct (make_bytes _) as [buf|] eqn:Hbuf; [|done].
  apply make_bytes_Some in Hbuf. cbn [mbind option_bind] in Hw.
  destruct (writeNode t _ (root t) newDataWriter buf)
    as [[[[b1 dw1] buf1] [[k nb] e1]]|] eqn:Hnodes; [|done].
  cbn [mbind option_bind] in Hw.
  destruct (bufio_NewWriter_wf w) as [Hwf0 _].
  assert (sink_err (bufio.NewWriter w)) as Hb0 by (by left).
  pose proof (writeNode_sink_err _ _ _ _ _ _ _ _ _ _ _ Hwf0 Hb0 Hbuf Hnodes) as [Hb1 He1].
  pose proof (writeNode_takes _ _ _ _ _ _ _ _ _ _ _ Hwf0 Hbuf Hnodes)
    as (_ & (Hwf1 & _) & _).
  destruct e1 as [e1|].
  { destruct (bufio.Flush b1) as [bf ?]. injection Hw as <- <- <-.
    destruct He1 as [?|[He1|He1]]; [done| |].
    - injection He1 as ->. left. split; [done|]. by eapply writeNode_err_size.
    - injection He1 as ->. auto. }
  apply writeNode_ok in Hnodes as (_ & _ & _ & _ & -> & _); [|done..].
  case_decide as Hk.
  { destruct (bufio.Flush b1) as [bf ?]. injection Hw as <- <- <-.
    right; left. split; [done|]. congruence. }
  destruct (bufio.Write b1 dataSectionSeparator) as [[b2 nb2] e2] eqn:Hsep.
  pose proof (bufio_Write_sink_err _ _ _ _ _ Hb1 Hsep) as [Hb2 He2].
  apply bufio_Write_takes in Hsep as (_ & (Hwf2 & _) & _); [|done].
  destruct e2 as [e2|].
  { destruct (bufio.Flush b2) as [bf ?]. injection Hw as <- <- <-.
    destruct He2 as [?|He2]; [done|]. injection He2 as ->. auto 10. }
  destruct (bytes.Buffer_WriteTo _ b2) as [[b3 nb3] e3] eqn:Hdata.
  pose proof (Buffer_WriteTo_sink_err _ _ _ _ _ Hwf2 Hb2 Hdata) as [Hb3 He3].
  apply Buffer_WriteTo_takes in Hdata as (_ & (Hwf3 & _) & _); [|done].
  destruct e3 as [e3|].
  { destruct (bufio.Flush b3) as [bf ?]. injection Hw as <- <- <-.
    destruct He3 as [?|He3]; [done|]. injection He3 as ->. auto 10. }
  destruct (bufio.Write b3 metadataStartMarker) as [[b4 nb4] e4] eqn:Hmark.
  pose proof (bufio_Write_sink_err _ _ _ _ _ Hb3 Hmark) as [Hb4 He4].
  destruct e4 as [e4|].
  { destruct (bufio.Flush b4) as [bf ?]. injection Hw as <- <- <-.
    destruct He4 as [?|He4]; [done|]. injection He4 as ->. auto 10. }
  unfold writeMetadata, DataType_writeTo in Hw.
  destruct (bufio.Write b4 (encode (metadata t))) as [[b5 nb5] e5] eqn:Hmeta.
  pose proof (bufio_Write_sink_err _ _ _ _ _ Hb4 Hmeta) as [Hb5 He5].
  destruct e5 as [e5|].
  { destruct (bufio.Flush b5) as [bf ?]. injection Hw as <- <- <-.
    destruct He5 as [?|He5]; [done|]. injection He5 as ->. auto 10. }
  destruct (bufio.Flush b5) as [bf ef] eqn:Hflush.
  apply bufio_Flush_sink_err in Hflush as [_ Hef]; [|done].
  destruct ef as [ef|]; [|done]. injection Hw as <- <- <-.
  destruct Hef as [?|Hef]; [done|]. injection Hef as ->. auto 10.
Qed.



(** X6.  WriteTo of a tree that has just been finalized never returns the
    error of a node count that does not match the nodes written, whatever
    the sink does: Finalize has counted the nodes that writeNode writes. *)
Theorem WriteTo_Finalize_node_count (t : Tree) (w w' : Sink) (n : Z)
    (e : option error) (written expected : Z) :
  WriteTo (Finalize t) w = Some (w', n, e) →
  e ≠ Some (ErrNodeCount written expected).
Proof.
  intros Hw ->. apply WriteTo_error_cases in Hw.
  pose proof (node_finalize_preorder (root t) 0) as (Hcount & Hlen & _).
  assert (nodeCount (Finalize t) = len (preorder (root (Finalize t)))) as Hn.
  { unfold Finalize. destruct (node_finalize (root t) 0) as [r count].
    cbn [fst snd] in *. simpl. lia. }
  destruct Hw as [[? _]|[_ Hw]]; [done|].
  destruct Hw as [[? _]|[[_ ?]|Hw]]; [done|done|].
  repeat (destruct Hw as [?|Hw]; [done|]). done.
Qed.

Lemma WriteTo_Finalize_node_count_witness :
  Some (ErrWrap ErrSink "error flushing buffer to writer")
  ≠ Some (ErrNodeCount 2 2).
Proof.
  apply (WriteTo_Finalize_node_count
           (Insert (Insert tree6 net6_low (String "A")).1
                   net6_high (Map [("country"%string, String "US")])).1
           sink_ten {| accepted := take 10 file_two; room := Some 0%nat |} 220).
  vm_compute. reflexivity.
Defined.

(** ** Record values of any magnitude *)

(** A record of values that fit reads back as these values. *)
Lemma unpackRecord_packRecord (size l r : Z) :
  size = 24 ∨ size = 28 ∨ size = 32 →
  0 ≤ l < 2 ^ size → 0 ≤ r < 2 ^ size →
  unpackRecord size (packRecord size l r) = Some (l, r).
Proof.
  intros [->|[->| ->]] Hl Hr; unfold unpackRecord.
  - change (packRecord 24 l r) with (be_bytes 3 l ++ be_bytes 3 r).
    cbn [be_bytes app]. rewrite decide_False by (intros H; by apply H).
    rewrite decide_True by done. cbn. unfold byte_of_int.
    rewrite !Z.shiftr_div_pow2 by lia.
    f_equal. f_equal; Z.div_mod_to_equations; lia.
  - change (packRecord 28 l r)
      with (be_bytes 3 l ++ [((l ≫ 24 .&. 15) ≪ 4) .|. (r ≫ 24 .&. 15)]
            ++ be_bytes 3 r).
    assert (0 ≤ l ≫ 24 < 16 ∧ 0 ≤ r ≫ 24 < 16) as [Hl4 Hr4].
    { rewrite !Z.shiftr_div_pow2 by lia. split; Z.div_mod_to_equations; lia. }
    assert (((l ≫ 24 .&. 15) ≪ 4) .|. (r ≫ 24 .&. 15)
            = (l ≫ 24) * 16 + r ≫ 24) as ->.
    { rewrite !nibble_land, !Z.mod_small by lia. by rewrite nibbles_lor by lia. }
    cbn [be_bytes app]. rewrite decide_False by (intros H; by apply H).
    rewrite decide_False, decide_True by done. cbn. unfold byte_of_int.
    rewrite nibble_land, !Z.shiftr_div_pow2 by lia.
    f_equal. f_equal; Z.div_mod_to_equations; lia.
  - change (packRecord 32 l r) with (be_bytes 4 l ++ be_bytes 4 r).
    cbn [be_bytes app]. rewrite decide_False by (intros H; by apply H).
    rewrite !decide_False, decide_True by done. cbn. unfold byte_of_int.
    rewrite !Z.shiftr_div_pow2 by lia.
    f_equal. f_equal; Z.div_mod_to_equations; lia.
Qed.

(** X7.  For each record size 24, 28 and 32 and every pair of record values,
    of any magnitude, copyRecord returns no error and the record it packs
    reads back as the two values modulo [2 ^ recordSize]: a value that
    does not fit is cut to its low bits. *)
Theorem copyRecord_truncates (t : Tree) (buf : list byte) (c0 c1 : node)
    (dw dw1 dw2 : dataWriter) (l r : Z) :
  recordSize t = 24 ∨ recordSize t = 28 ∨ recordSize t = 32 →
  len buf = (2 * recordSize t) `quot` 8 →
  recordValueForNode t c0 dw = (dw1, l, None) →
  recordValueForNode t c1 dw1 = (dw2, r, None) →
  ∃ buf',
    copyRecord t buf (c0, c1) dw = Some (buf', dw2, None) ∧
    unpackRecord (recordSize t) buf'
      = Some (l `mod` 2 ^ recordSize t, r `mod` 2 ^ recordSize t).
Proof.
  intros Hsz Hlen Hl Hr. eexists. split.
  - by apply (copyRecord_packRecord t Hsz buf c0 c1 dw dw1 dw2 l r).
  - rewrite <-packRecord_mod by done.
    apply unpackRecord_packRecord; [done|apply Z.mod_pos_bound..];
      destruct Hsz as [->|[->| ->]]; done.
Qed.

Lemma copyRecord_truncates_witness :
  ∃ buf',
    copyRecord tree6_24 (replicate 6 0)
      (Node (Leaf None) (Leaf None) (2 ^ 24 + 5), Node (Leaf None) (Leaf None) 7)
      newDataWriter = Some (buf', newDataWriter, None) ∧
    unpackRecord (recordSize tree6_24) buf'
      = Some ((2 ^ 24 + 5) `mod` 2 ^ recordSize tree6_24,
              7 `mod` 2 ^ recordSize tree6_24).
Proof.
  apply (copyRecord_truncates tree6_24 (replicate 6 0)
           (Node (Leaf None) (Leaf None) (2 ^ 24 + 5))
           (Node (Leaf None) (Leaf None) 7)
           newDataWriter newDataWriter newDataWriter);
    [left; reflexivity|reflexivity..].
Defined.

(** ** The ranges of the record values *)

(** An encoded value has at least its control byte. *)
Lemma control_nonempty (typeNum size : Z) : 0 < len (control typeNum size).
Proof.
  unfold control. repeat case_decide; rewrite ?len_app; unfold len; simpl; lia.
Qed.

Lemma encode_nonempty (v : DataType) : 0 < len (encode v).
Proof.
  assert (∀ t s (l : list byte), 0 < len (control t s ++ l)) as Happ.
  { intros t s l. rewrite len_app. pose proof (control_nonempty t s).
    pose proof (len_nonneg l). lia. }
  destruct v; cbn [encode]; unfold encode_uint, encode_string, encode_pointer;
    try apply Happ; try apply control_nonempty.
  - repeat case_decide; unfold len; simpl; lia.
  - case_decide; apply Happ.
Qed.

Lemma dataWriter_write_ok (dw dw' : dataWriter) (v : DataType) (o : Z)
    (e : option error) :
  pool_ok dw →
  dataWriter_write dw v = (dw', o, e) →
  pool_ok dw' ∧ 0 ≤ o < len (dw_buf dw') ∧ len (dw_buf dw) ≤ len (dw_buf dw').
Proof.
  intros Hpool. unfold dataWriter_write.
  destruct (dw_pool dw !! encode v) as [o'|] eqn:Hlook; intros ?; simplify_eq.
  - split; [done|]. split; [by eapply Hpool|lia].
  - pose proof (encode_nonempty v). pose proof (len_nonneg (dw_buf dw)).
    cbn [dw_buf dw_pool]. rewrite len_app. split; [|lia].
    intros b o Hb. cbn [dw_pool dw_buf] in *. rewrite len_app.
    apply lookup_insert_Some in Hb as [[<- <-]|[_ Hb]].
    + lia.
    + apply Hpool in Hb. lia.
Qed.

Lemma valueInRange_mono (count d d' : Z) (child : node) (x : Z) :
  d ≤ d' → valueInRange count d child x → valueInRange count d' child x.
Proof. intros Hd. destruct child as [[v|]|]; simpl; lia. Qed.

Lemma recordValue_spec_ok (count : Z) (child : node) (dw dw' : dataWriter)
    (x : Z) :
  pool_ok dw →
  (isLeaf child = false → 0 < nodeNum child < count) →
  recordValue_spec count child dw = (dw', x) →
  pool_ok dw' ∧ len (dw_buf dw) ≤ len (dw_buf dw') ∧
  valueInRange count (len (dw_buf dw')) child x.
Proof.
  intros Hpool Hnum. destruct child as [[v|]|c0 c1 num]; cbn [recordValue_spec].
  - destruct (dataWriter_write dw v) as [[dw1 o] e] eqn:Hw.
    apply dataWriter_write_ok in Hw as (Hpool1 & Ho & Hlen); [|done].
    intros ?; simplify_eq. simpl. split; [done|]. split; [done|lia].
  - intros ?; simplify_eq. simpl. split; [done|]. split; [lia|done].
  - intros ?; simplify_eq. simpl. split; [done|]. split; [lia|by apply Hnum].
Qed.

Lemma recordValues_spec_ok (count : Z) (slots : list (node * node))
    (dw : dataWriter) :
  pool_ok dw →
  Forall (λ slot : node * node,
            (isLeaf slot.1 = false → 0 < nodeNum slot.1 < count) ∧
            (isLeaf slot.2 = false → 0 < nodeNum slot.2 < count)) slots →
  pool_ok (recordValues_spec count slots dw).2 ∧
  len (dw_buf dw) ≤ len (dw_buf (recordValues_spec count slots dw).2) ∧
  Forall2 (λ (slot : node * node) (lr : Z * Z),
             ∀ d, len (dw_buf (recordValues_spec count slots dw).2) ≤ d →
                  valueInRange count d slot.1 lr.1 ∧
                  valueInRange count d slot.2 lr.2)
          slots (recordValues_spec count slots dw).1.
Proof.
  revert dw. induction slots as [|[c0 c1] slots IH]; intros dw Hpool Hslots.
  { simpl. split; [done|]. split; [lia|constructor]. }
  apply Forall_cons in Hslots as [[Hc0 Hc1] Hslots]. cbn [fst snd] in *.
  cbn [recordValues_spec].
  destruct (recordValue_spec count c0 dw) as [dw1 l] eqn:Hl.
  apply recordValue_spec_ok in Hl as (Hpool1 & Hlen1 & Hrange1); [|done..].
  destruct (recordValue_spec count c1 dw1) as [dw2 r] eqn:Hr.
  apply recordValue_spec_ok in Hr as (Hpool2 & Hlen2 & Hrange2); [|done..].
  destruct (IH dw2 Hpool2 Hslots) as (Hpool3 & Hlen3 & Hall).
  destruct (recordValues_spec count slots dw2) as [values dw3].
  cbn [fst snd] in *. split; [done|]. split; [lia|].
  constructor; [|done]. intros d Hd. cbn [fst snd].
  split; eapply valueInRange_mono; [|done| |done]; lia.
Qed.

Lemma node_finalize_nodeNum (n : node) (k : Z) :
  isLeaf n = false → nodeNum (node_finalize n k).1 = k.
Proof.
  destruct n as [v|c0 c1 num]; [done|]. intros _. cbn [node_finalize].
  destruct (node_finalize c0 (k + 1)) as [c0' k0].
  by destruct (node_finalize c1 k0) as [c1' k1].
Qed.

Lemma preorder_nonempty (n : node) : isLeaf n = false → 0 < len (preorder n).
Proof. destruct n; [done|]. intros _. unfold len. simpl. lia. Qed.

(** The children of the nodes of a subtree numbered from [k] carry numbers
    above [k] and below the next free number. *)
Lemma node_finalize_children (n : node) (k : Z) :
  Forall (λ slot : node * node,
            (isLeaf slot.1 = false → k < nodeNum slot.1 < k + len (preorder n)) ∧
            (isLeaf slot.2 = false → k < nodeNum slot.2 < k + len (preorder n)))
         (preorder (node_finalize n k).1).
Proof.
  revert k. induction n as [v|c0 IH0 c1 IH1 num]; intros k; [constructor|].
  cbn [node_finalize].
  pose proof (node_finalize_preorder c0 (k + 1)) as (Hnext0 & Hlen0 & Hleaf0).
  pose proof (node_finalize_nodeNum c0 (k + 1)) as Hnum0.
  specialize (IH0 (k + 1)).
  destruct (node_finalize c0 (k + 1)) as [c0' k0]. cbn [fst snd] in *.
  pose proof (node_finalize_preorder c1 k0) as (Hnext1 & Hlen1 & Hleaf1).
  pose proof (node_finalize_nodeNum c1 k0) as Hnum1.
  specialize (IH1 k0).
  destruct (node_finalize c1 k0) as [c1' k1]. cbn [fst snd preorder] in *.
  pose proof (len_nonneg (preorder c0)). pose proof (len_nonneg (preorder c1)).
  assert (len ((c0, c1) :: preorder c0 ++ preorder c1)
          = 1 + len (preorder c0) + len (preorder c1)) as ->.
  { unfold len. rewrite length_cons, length_app. lia. }
  constructor; [|apply Forall_app; split].
  - cbn [fst snd]. split; intros Hleaf.
    + rewrite Hnum0 by congruence.
      pose proof (preorder_nonempty c0 ltac:(congruence)). lia.
    + rewrite Hnum1 by congruence.
      pose proof (preorder_nonempty c1 ltac:(congruence)). lia.
  - eapply Forall_impl; [exact IH0|]. intros [a b] [Ha Hb]. cbn [fst snd] in *.
    split; intros Hleaf; [specialize (Ha Hleaf)|specialize (Hb Hleaf)]; lia.
  - eapply Forall_impl; [exact IH1|]. intros [a b] [Ha Hb]. cbn [fst snd] in *.
    split; intros Hleaf; [specialize (Ha Hleaf)|specialize (Hb Hleaf)]; lia.
Qed.

(** X8.  In a finalized tree the record values of the children, which the
    node section packs slot by slot, fall into three ranges that tell the
    children apart: the value of an internal child is its number, above 0
    and below the node count; the value of an empty leaf is the node
    count; the value of a valued leaf is at least the node count plus 16
    and points inside the data section that the write fills. *)
Theorem Finalize_record_values (t : Tree) :
  let ft := Finalize t in
  let slots := preorder (root ft) in
  let values := (recordValues_spec (nodeCount ft) slots newDataWriter).1 in
  let dw := (recordValues_spec (nodeCount ft) slots newDataWriter).2 in
  nodeSection ft slots newDataWriter = (packRecords (recordSize ft) values, dw) ∧
  Forall2 (λ (slot : node * node) (lr : Z * Z),
             valueInRange (nodeCount ft) (len (dw_buf dw)) slot.1 lr.1 ∧
             valueInRange (nodeCount ft) (len (dw_buf dw)) slot.2 lr.2)
          slots values.
Proof.
  intros ft slots values dw. split.
  { rewrite nodeSection_spec. subst values dw.
    by destruct (recordValues_spec _ _ _). }
  pose proof (node_finalize_children (root t) 0) as Hchildren.
  pose proof (node_finalize_preorder (root t) 0) as (Hcount & _).
  assert (nodeCount ft = len (preorder (root t)) ∧
          slots = preorder (node_finalize (root t) 0).1) as [Hn Hs].
  { subst slots ft. unfold Finalize.
    destruct (node_finalize (root t) 0) as [r count]. cbn [fst snd] in *.
    simpl. split; [lia|done]. }
  rewrite <-Hs, Z.add_0_l, <-Hn in Hchildren.
  destruct (recordValues_spec_ok (nodeCount ft) slots newDataWriter)
    as (_ & _ & Hall); [by intros b o Hb; cbn in Hb; apply lookup_empty_Some in Hb|done|].
  eapply Forall2_impl; [exact Hall|]. intros slot lr Hd. by apply Hd.
Qed.

(** ** Lookups after an insertion *)

Lemma node_get_insert_bits_within (k : nat) (n : node) (ip ip2 : list byte)
    (depth : Z) (v : DataType) :
  (∀ j, 0 ≤ j < Z.of_nat k → bitAt ip2 (depth + j) = bitAt ip (depth + j)) →
  node_get (insert_bits k n ip depth v) ip2 depth = (depth + Z.of_nat k, Some v).
Proof.
  revert n depth. induction k as [|k IH]; intros n depth Hbits.
  - simpl. f_equal. lia.
  - cbn [insert_bits]. destruct (materialize n) as [[c0 c1] num].
    pose proof (Hbits 0 ltac:(lia)) as Hbit. rewrite Z.add_0_r in Hbit.
    assert (node_get (insert_bits k c0 ip (depth + 1) v) ip2 (depth + 1)
            = (depth + 1 + Z.of_nat k, Some v) ∧
            node_get (insert_bits k c1 ip (depth + 1) v) ip2 (depth + 1)
            = (depth + 1 + Z.of_nat k, Some v)) as [H0 H1].
    { split; apply IH; intros j Hj; rewrite <-!Z.add_assoc; apply Hbits; lia. }
    destruct (bitAt ip depth); cbn [node_get]; rewrite Hbit, ?H0, ?H1;
      f_equal; lia.
Qed.

Lemma node_get_materialize (n : node) (ip : list byte) (depth : Z) :
  let '(c0, c1, _) := materialize n in
  (node_get (if bitAt ip depth then c1 else c0) ip (depth + 1)).2
  = (node_get n ip depth).2.
Proof. destruct n as [x|c0 c1 num]; simpl; by destruct (bitAt ip depth). Qed.

Lemma node_get_insert_bits_outside (k : nat) (n : node) (ip ip2 : list byte)
    (depth : Z) (v : DataType) :
  (∃ j, 0 ≤ j < Z.of_nat k ∧ bitAt ip2 (depth + j) ≠ bitAt ip (depth + j)) →
  (node_get (insert_bits k n ip depth v) ip2 depth).2 = (node_get n ip2 depth).2.
Proof.
  revert n depth. induction k as [|k IH]; intros n depth (j & Hj & Hbit); [lia|].
  cbn [insert_bits]. pose proof (node_get_materialize n ip2 depth) as Hmat.
  destruct (materialize n) as [[c0 c1] num].
  destruct (decide (bitAt ip2 depth = bitAt ip depth)) as [Heq|Hne].
  - assert (∃ j', 0 ≤ j' < Z.of_nat k ∧
                  bitAt ip2 (depth + 1 + j') ≠ bitAt ip (depth + 1 + j')) as Hrest.
    { exists (j - 1). assert (j ≠ 0) by (intros ->; by rewrite Z.add_0_r in Hbit).
      split; [lia|]. by replace (depth + 1 + (j - 1)) with (depth + j) by lia. }
    rewrite <-Hmat, Heq.
    destruct (bitAt ip depth); cbn [node_get]; rewrite Heq; by apply IH.
  - rewrite <-Hmat.
    destruct (bitAt ip depth), (bitAt ip2 depth) eqn:Hb2; try done;
      cbn [node_get]; by rewrite Hb2.
Qed.

Lemma bitAt_ipV4ToV6_low (ip : list byte) (d : Z) :
  0 ≤ d < 96 → bitAt (ipV4ToV6 ip) d = false.
Proof.
  intros Hd. unfold bitAt, ipV4ToV6.
  assert (Z.to_nat (d `div` 8) < 12)%nat as Hi.
  { apply Nat2Z.inj_lt. rewrite Z2Nat.id by (apply Z.div_pos; lia).
    apply Z.div_lt_upper_bound; lia. }
  rewrite lookup_app_l by done.
  destruct (Z.to_nat (d `div` 8)) as [|i]; [by rewrite Z.bits_0|].
  do 11 (destruct i as [|i]; [by rewrite Z.bits_0|]). simpl in Hi. lia.
Qed.

Lemma bitAt_ipV4ToV6_high (ip : list byte) (d : Z) :
  0 ≤ d → bitAt (ipV4ToV6 ip) (96 + d) = bitAt ip d.
Proof.
  intros Hd. unfold bitAt, ipV4ToV6.
  replace ((96 + d) `div` 8) with (12 + d `div` 8)
    by (Z.div_mod_to_equations; lia).
  replace ((96 + d) `mod` 8) with (d `mod` 8) by (Z.div_mod_to_equations; lia).
  rewrite Z2Nat.inj_add by (try apply Z.div_pos; lia).
  rewrite lookup_app_r by (simpl; lia).
  do 3 f_equal. simpl. lia.
Qed.

(** The trie after an Insert that is accepted. *)
Lemma Insert_root (t : Tree) (network : net.IPNet) (v : DataType) :
  (net.IPMask_Size (net.Mask network)).1 ≠ 0 →
  (Insert t network v).2 = None ∧
  treeDepth (Insert t network v).1 = treeDepth t ∧
  root (Insert t network v).1 =
    if bool_decide (treeDepth t = 128) && bool_decide (len (net.IP network) = 4)
    then node_insert (root t) (ipV4ToV6 (net.IP network))
           ((net.IPMask_Size (net.Mask network)).1 + 96) 0 v
    else node_insert (root t) (net.IP network)
           (net.IPMask_Size (net.Mask network)).1 0 v.
Proof.
  intros Hlen. rewrite Insert_ok by done. cbv zeta.
  by destruct (bool_decide (treeDepth t = 128) && bool_decide _).
Qed.

(** The value that Get returns is the one that the trie holds for the
    address in the form of the tree. *)
Lemma Get_value (t : Tree) (ip : list byte) :
  (Get t ip).2 =
    (node_get (root t)
       (if decide (treeDepth t = 128) then
          match net.IP_To4 ip with
          | Some ipv4 => ipV4ToV6 ipv4
          | None => ip
          end
        else ip) 0).2.
Proof. unfold Get. by destruct (node_get _ _ _). Qed.

(** X9.  After an Insert with a prefix length other than 0, which returns
    no error, Get returns the inserted value for every address that agrees
    with the address of the network on the bits of the prefix, whatever
    the tree held before.  The two addresses are of one family: both have
    4 bytes in a tree of depth 128, or neither is converted, the one by
    Insert and the other by Get. *)
Theorem Get_Insert_within (t : Tree) (network : net.IPNet) (v : DataType)
    (ip2 : list byte) :
  (net.IPMask_Size (net.Mask network)).1 ≠ 0 →
  (∀ d, 0 ≤ d < (net.IPMask_Size (net.Mask network)).1 →
        bitAt ip2 d = bitAt (net.IP network) d) →
  treeDepth t = 128 ∧ len (net.IP network) = 4 ∧ len ip2 = 4 ∨
  (treeDepth t ≠ 128 ∨ len (net.IP network) ≠ 4) ∧
  (treeDepth t ≠ 128 ∨ net.IP_To4 ip2 = None) →
  (Insert t network v).2 = None ∧
  (Get (Insert t network v).1 ip2).2 = Some v.
Proof.
  intros Hlen Hbits Hfamily.
  destruct (Insert_root t network v Hlen) as (Herr & Hdepth & Hroot).
  split; [done|]. rewrite Get_value, Hdepth, Hroot.
  pose proof (Mask_Size_nonneg (net.Mask network)) as Hp.
  destruct Hfamily as [(H128 & Hip & Hip2)|[Hins Hget]].
  - rewrite !bool_decide_true, decide_True by done. cbn [andb].
    unfold net.IP_To4. rewrite decide_True by done.
    unfold node_insert. rewrite node_get_insert_bits_within; [done|].
    intros j Hj. rewrite !Z.add_0_l.
    destruct (decide (j < 96)).
    + by rewrite !bitAt_ipV4ToV6_low by lia.
    + replace j with (96 + (j - 96)) by lia.
      rewrite !bitAt_ipV4ToV6_high by lia. apply Hbits. lia.
  - assert (bool_decide (treeDepth t = 128)
            && bool_decide (len (net.IP network) = 4) = false) as ->.
    { apply andb_false_iff. rewrite !bool_decide_eq_false. tauto. }
    assert ((if decide (treeDepth t = 128) then
               match net.IP_To4 ip2 with
               | Some ipv4 => ipV4ToV6 ipv4
               | None => ip2
               end
             else ip2) = ip2) as ->.
    { case_decide; [|done]. destruct Hget as [?| ->]; done. }
    unfold node_insert. rewrite node_get_insert_bits_within; [done|].
    intros j Hj. rewrite !Z.add_0_l. apply Hbits. lia.
Qed.

Lemma Get_Insert_within_witness :
  (Insert tree6 net_10_8 (String "X")).2 = None ∧
  (Get (Insert tree6 net_10_8 (String "X")).1 [10; 1; 2; 3]).2
    = Some (String "X").
Proof.
  apply (Get_Insert_within tree6 net_10_8 (String "X") [10; 1; 2; 3]).
  - by vm_compute.
  - intros d Hd. change ((net.IPMask_Size (net.Mask net_10_8)).1) with 8 in Hd.
    unfold bitAt. replace (d `div` 8) with 0 by (Z.div_mod_to_equations; lia).
    reflexivity.
  - left. repeat split; reflexivity.
Defined.

(** X10.  An Insert with a prefix length other than 0 leaves the value that
    Get returns as it was for every address of the same family that
    differs from the address of the network in a bit of the prefix. *)
Theorem Get_Insert_outside (t : Tree) (network : net.IPNet) (v : DataType)
    (ip2 : list byte) :
  (net.IPMask_Size (net.Mask network)).1 ≠ 0 →
  (∃ d, 0 ≤ d < (net.IPMask_Size (net.Mask network)).1 ∧
        bitAt ip2 d ≠ bitAt (net.IP network) d) →
  treeDepth t = 128 ∧ len (net.IP network) = 4 ∧ len ip2 = 4 ∨
  (treeDepth t ≠ 128 ∨ len (net.IP network) ≠ 4) ∧
  (treeDepth t ≠ 128 ∨ net.IP_To4 ip2 = None) →
  (Get (Insert t network v).1 ip2).2 = (Get t ip2).2.
Proof.
  intros Hlen (d & Hd & Hbit) Hfamily.
  destruct (Insert_root t network v Hlen) as (Herr & Hdepth & Hroot).
  rewrite !Get_value, Hdepth, Hroot.
  destruct Hfamily as [(H128 & Hip & Hip2)|[Hins Hget]].
  - rewrite !bool_decide_true, decide_True by done. cbn [andb].
    unfold net.IP_To4. rewrite decide_True by done.
    unfold node_insert. apply node_get_insert_bits_outside.
    exists (96 + d). rewrite !Z.add_0_l, !bitAt_ipV4ToV6_high by lia.
    split; [lia|done].
  - assert (bool_decide (treeDepth t = 128)
            && bool_decide (len (net.IP network) = 4) = false) as ->.
    { apply andb_false_iff. rewrite !bool_decide_eq_false. tauto. }
    assert ((if decide (treeDepth t = 128) then
               match net.IP_To4 ip2 with
               | Some ipv4 => ipV4ToV6 ipv4
               | None => ip2
               end
             else ip2) = ip2) as ->.
    { case_decide; [|done]. destruct Hget as [?| ->]; done. }
    unfold node_insert. apply node_get_insert_bits_outside.
    exists d. rewrite !Z.add_0_l. split; [lia|done].
Qed.

Lemma Get_Insert_outside_witness :
  (Get (Insert (Insert tree6 net_10_8 (String "X")).1
               net_10_1_16 (String "Y")).1 [10; 2; 2; 3]).2
  = (Get (Insert tree6 net_10_8 (String "X")).1 [10; 2; 2; 3]).2.
Proof.
  apply (Get_Insert_outside (Insert tree6 net_10_8 (String "X")).1
           net_10_1_16 (String "Y") [10; 2; 2; 3]).
  - by vm_compute.
  - exists 15. split; [split; by vm_compute|by vm_compute].
  - left. repeat split; reflexivity.
Defined.

(** ** The forms of an IPv4 address in a tree of depth 128 *)

Lemma IP_To4_mapped (ip4 : list byte) :
  len ip4 = 4 → net.IP_To4 (net.v4InV6Prefix ++ ip4) = Some ip4.
Proof.
  intros Hlen. unfold len in Hlen.
  do 5 (destruct ip4 as [|? ip4]; try (simpl in Hlen; lia)).
  reflexivity.
Qed.

Lemma IP_To4_ipV4ToV6 (ip4 : list byte) :
  len ip4 = 4 → net.IP_To4 (ipV4ToV6 ip4) = None.
Proof.
  intros Hlen. unfold len in Hlen.
  do 5 (destruct ip4 as [|? ip4]; try (simpl in Hlen; lia)).
  reflexivity.
Qed.

(** X11.  In a tree of depth 128 Get returns the same value for the three
    forms of an IPv4 address: its 4 bytes, the 16 bytes of the IPv4-mapped
    address ::ffff:a.b.c.d, and the 16 bytes ::a.b.c.d under which the
    tree holds it. *)
Theorem Get_v4_forms (t : Tree) (ip4 : list byte) :
  treeDepth t = 128 →
  len ip4 = 4 →
  (Get t (net.v4InV6Prefix ++ ip4)).2 = (Get t ip4).2 ∧
  (Get t (ipV4ToV6 ip4)).2 = (Get t ip4).2.
Proof.
  intros Hdepth Hlen. rewrite !Get_value, !decide_True by done.
  rewrite IP_To4_mapped, IP_To4_ipV4ToV6 by done.
  unfold net.IP_To4. by rewrite decide_True by done.
Qed.

Lemma Get_v4_forms_witness :
  (Get tree6_one (net.v4InV6Prefix ++ [1; 1; 1; 1])).2
    = (Get tree6_one [1; 1; 1; 1]).2 ∧
  (Get tree6_one (ipV4ToV6 [1; 1; 1; 1])).2 = (Get tree6_one [1; 1; 1; 1]).2.
Proof. apply (Get_v4_forms tree6_one [1; 1; 1; 1]); reflexivity. Defined.

(** X12.  In a tree of depth 128, the Insert of a network with a 4-byte
    address and a prefix length [p] other than 0 is the Insert of the
    network with the 16-byte address ::a.b.c.d and the prefix length
    [p + 96]: same tree, same result. *)
Theorem Insert_v4_as_v6 (t : Tree) (ip4 mask4 mask16 : list byte)
    (v : DataType) :
  treeDepth t = 128 →
  len ip4 = 4 →
  (net.IPMask_Size mask4).1 ≠ 0 →
  (net.IPMask_Size mask16).1 = (net.IPMask_Size mask4).1 + 96 →
  Insert t {| net.IP := ip4; net.Mask := mask4 |} v
  = Insert t {| net.IP := ipV4ToV6 ip4; net.Mask := mask16 |} v.
Proof.
  intros Hdepth Hlen Hsize Hsize16.
  pose proof (Mask_Size_nonneg mask4).
  rewrite !Insert_ok by (cbn [net.Mask]; lia). cbn [net.IP net.Mask].
  cbv zeta. rewrite Hsize16.
  rewrite !(bool_decide_true (treeDepth t = 128)) by done.
  rewrite (bool_decide_true (len ip4 = 4)) by done.
  rewrite (bool_decide_false (len (ipV4ToV6 ip4) = 4)); [done|].
  unfold ipV4ToV6. rewrite len_app, Hlen. done.
Qed.

Lemma Insert_v4_as_v6_witness :
  Insert tree6 {| net.IP := [1; 1; 1; 1]; net.Mask := [255; 255; 255; 255] |}
    (String "A")
  = Insert tree6 {| net.IP := ipV4ToV6 [1; 1; 1; 1];
                    net.Mask := replicate 16 255 |} (String "A").
Proof.
  apply (Insert_v4_as_v6 tree6 [1; 1; 1; 1] [255; 255; 255; 255]
           (replicate 16 255) (String "A"));
    [reflexivity|reflexivity|by vm_compute|by vm_compute].
Defined.

(** X13.  In a tree of depth 128, a network inserted with the 16-byte
    IPv4-mapped form ::ffff:a.b.c.d of its address and a prefix length
    above 80 is taken without an error under that address, where Get does
    not look: for the address of the network, in its 16-byte form as in
    its 4-byte form, Get returns what it returned before the Insert. *)
Theorem Insert_v4_mapped_not_found (t : Tree) (ip4 mask : list byte)
    (v : DataType) :
  treeDepth t = 128 →
  len ip4 = 4 →
  80 < (net.IPMask_Size mask).1 →
  let ip := net.v4InV6Prefix ++ ip4 in
  let network := {| net.IP := ip; net.Mask := mask |} in
  (Insert t network v).2 = None ∧
  (Get (Insert t network v).1 ip).2 = (Get t ip).2 ∧
  (Get (Insert t network v).1 ip4).2 = (Get t ip4).2.
Proof.
  intros Hdepth Hlen Hsize ip network.
  destruct (Insert_root t network v) as (Herr & Hdepth' & Hroot);
    [cbn [network net.Mask]; lia|].
  cbn [network net.IP net.Mask] in Hroot.
  rewrite (bool_decide_false (len ip = 4)), andb_false_r in Hroot
    by (unfold ip; rewrite len_app, Hlen; done).
  assert (∀ u, treeDepth u = 128 →
               (Get u ip).2 = (node_get (root u) (ipV4ToV6 ip4) 0).2 ∧
               (Get u ip4).2 = (node_get (root u) (ipV4ToV6 ip4) 0).2) as Hget.
  { intros u Hu. rewrite !Get_value, !decide_True by done.
    unfold ip. rewrite IP_To4_mapped by done.
    unfold net.IP_To4. by rewrite decide_True by done. }
  destruct (Hget t Hdepth) as [-> ->].
  destruct (Hget (Insert t network v).1) as [-> ->]; [congruence|].
  rewrite Hroot. unfold node_insert.
  assert ((node_get (insert_bits (Z.to_nat ((net.IPMask_Size mask).1 - 0))
                       (root t) ip 0 v) (ipV4ToV6 ip4) 0).2
          = (node_get (root t) (ipV4ToV6 ip4) 0).2) as Hout; [|done].
  apply node_get_insert_bits_outside. exists 80. split; [lia|].
  rewrite Z.add_0_l, bitAt_ipV4ToV6_low by lia. done.
Qed.

Lemma Insert_v4_mapped_not_found_witness :
  let ip := net.v4InV6Prefix ++ [1; 1; 1; 1] in
  let network := {| net.IP := ip; net.Mask := replicate 16 255 |} in
  (Insert tree6 network (String "A")).2 = None ∧
  (Get (Insert tree6 network (String "A")).1 ip).2 = (Get tree6 ip).2 ∧
  (Get (Insert tree6 network (String "A")).1 [1; 1; 1; 1]).2
    = (Get tree6 [1; 1; 1; 1]).2.
Proof.
  apply (Insert_v4_mapped_not_found tree6 [1; 1; 1; 1] (replicate 16 255)
           (String "A")); [reflexivity|reflexivity|by vm_compute].
Defined.

(** ** The network that Get returns *)

(** The masks of 32 bits, by enumeration of the 33 prefix lengths. *)
Lemma CIDRMask_32_enum :
  forallb (λ n : nat,
    let mask := net.CIDRMask (Z.of_nat n) 32 in
    bool_decide (net.IPMask_Size mask = (Z.of_nat n, 32))
    && bool_decide (len mask = 4))
  (seq 0 33) = true.
Proof. vm_compute. reflexivity. Qed.

Lemma CIDRMask_32 (ones : Z) :
  0 ≤ ones ≤ 32 →
  net.IPMask_Size (net.CIDRMask ones 32) = (ones, 32) ∧
  len (net.CIDRMask ones 32) = 4.
Proof.
  intros Hones. pose proof CIDRMask_32_enum as Henum.
  rewrite forallb_forall in Henum.
  specialize (Henum (Z.to_nat ones)). rewrite Z2Nat.id in Henum by lia.
  cbv zeta in Henum. rewrite andb_true_iff, !bool_decide_eq_true in Henum.
  apply Henum, in_seq. lia.
Qed.

(** X14.  For an address of the family of the tree (4 bytes in a tree of
    depth 32; 16 bytes that are not an IPv4-mapped address in a tree of
    depth 128) and a lookup that ends at a depth [m] within the depth of
    the tree, Get returns the value found there and the network of the
    address masked to [m] bits, with the canonical mask of [m] ones. *)
Theorem Get_native (t : Tree) (ip : list byte) :
  treeDepth t = 32 ∧ len ip = 4 ∨
  treeDepth t = 128 ∧ len ip = 16 ∧ net.IP_To4 ip = None →
  0 ≤ (node_get (root t) ip 0).1 ≤ treeDepth t →
  let m := (node_get (root t) ip 0).1 in
  Get t ip = ({| net.IP := zip_with Z.land ip (net.CIDRMask m (treeDepth t));
                 net.Mask := net.CIDRMask m (treeDepth t) |},
              (node_get (root t) ip 0).2) ∧
  net.IPMask_Size (net.CIDRMask m (treeDepth t)) = (m, treeDepth t).
Proof.
  intros Hfamily Hm m. subst m. unfold Get.
  destruct Hfamily as [[Hdepth Hip]|(Hdepth & Hip & Hto4)]; rewrite Hdepth in *.
  - rewrite decide_False by done.
    destruct (node_get (root t) ip 0) as [m value]. cbn [fst snd] in *.
    destruct (CIDRMask_32 m Hm) as [Hsize Hlen]. split; [|done].
    rewrite (bool_decide_false (m >= 96)) by lia. cbn [andb].
    unfold net.IP_Mask.
    rewrite (bool_decide_false (len (net.CIDRMask m 32) = 16)) by lia.
    cbn [andb]. rewrite (bool_decide_false (len ip = 16)), andb_false_r by lia.
    cbn [andb]. by rewrite decide_False by lia.
  - rewrite decide_True, Hto4 by done.
    destruct (node_get (root t) ip 0) as [m value]. cbn [fst snd] in *.
    destruct (CIDRMask_128 m Hm) as (Hsize & Hlen & _). split; [|done].
    rewrite (bool_decide_false (len ip = 4)), andb_false_r by lia.
    unfold net.IP_Mask.
    rewrite (bool_decide_false (len ip = 4)), andb_false_r by lia.
    cbn [andb]. rewrite (bool_decide_false (len (net.CIDRMask m 128) = 4)) by lia.
    cbn [andb]. by rewrite decide_False by lia.
Qed.

Lemma Get_native_witness :
  let t := (Insert tree4 net_10_8 (String "X")).1 in
  let ip := [10; 1; 2; 3] in
  let m := (node_get (root t) ip 0).1 in
  Get t ip = ({| net.IP := zip_with Z.land ip (net.CIDRMask m (treeDepth t));
                 net.Mask := net.CIDRMask m (treeDepth t) |},
              (node_get (root t) ip 0).2) ∧
  net.IPMask_Size (net.CIDRMask m (treeDepth t)) = (m, treeDepth t).
Proof.
  apply (Get_native (Insert tree4 net_10_8 (String "X")).1 [10; 1; 2; 3]).
  - left. split; reflexivity.
  - split; by vm_compute.
Defined.

(** ** Finalize and the trie *)

Lemma node_get_finalize (n : node) (k : Z) (ip : list byte) (depth : Z) :
  node_get (node_finalize n k).1 ip depth = node_get n ip depth.
Proof.
  revert k depth. induction n as [v|c0 IH0 c1 IH1 num]; intros k depth; [done|].
  cbn [node_finalize].
  specialize (IH0 (k + 1) (depth + 1)).
  destruct (node_finalize c0 (k + 1)) as [c0' k0].
  specialize (IH1 k0 (depth + 1)).
  destruct (node_finalize c1 k0) as [c1' k1]. cbn [fst node_get] in *.
  by rewrite IH0, IH1.
Qed.

(** X15.  Finalize does not change what Get returns, network and value,
    for any address. *)
Theorem Get_Finalize (t : Tree) (ip : list byte) :
  Get (Finalize t) ip = Get t ip.
Proof.
  pose proof (node_get_finalize (root t) 0) as Hget.
  unfold Get, Finalize. destruct (node_finalize (root t) 0) as [r count].
  cbn [fst] in Hget. cbn [treeDepth root set_nodeCount set_root].
  by rewrite !Hget.
Qed.

Lemma node_finalize_idempotent (n : node) (k : Z) :
  node_finalize (node_finalize n k).1 k = node_finalize n k.
Proof.
  revert k. induction n as [v|c0 IH0 c1 IH1 num]; intros k; [done|].
  cbn [node_finalize].
  specialize (IH0 (k + 1)).
  destruct (node_finalize c0 (k + 1)) as [c0' k0].
  specialize (IH1 k0).
  destruct (node_finalize c1 k0) as [c1' k1]. cbn [fst node_finalize] in *.
  by rewrite IH0, IH1.
Qed.

(** X16.  Finalize is idempotent: a second Finalize without an Insert in
    between leaves the finalized tree, its node numbers and its node count
    as they are. *)
Theorem Finalize_idempotent (t : Tree) :
  Finalize (Finalize t) = Finalize t.
Proof.
  pose proof (node_finalize_idempotent (root t) 0) as Hfin.
  unfold Finalize at 2 3. destruct (node_finalize (root t) 0) as [r count].
  cbn [fst] in Hfin. unfold Finalize. cbn [root set_nodeCount set_root].
  by rewrite Hfin.
Qed.
